(** * Data lineage middleware: a shallow embedding and its properties

    Source: [fireflyframework_genai_data/middleware/lineage.py], class
    [DataLineageMiddleware].  The middleware keeps a list of record
    dictionaries, writes three keys into the metadata dictionary of a
    context before an agent run, and appends one record after it.

    The Python objects involved are mutable and shared (the metadata
    dictionary is owned by the caller, every record dictionary is shared
    between the internal list and each list returned by [records]), so the
    embedding threads an explicit object store: values are immediate or
    references, dictionaries and lists live in the store.

    The second part covers the pipeline steps ([steps/quality_step.py],
    [steps/enrichment_step.py]), the job tool ([tools/job_tool.py]) and the
    client ([client.py]) over the same store; the HTTP library and the
    validation rules are parameters. *)

From Stdlib Require Import ZArith QArith.
From stdpp Require Import base option list functions gmap strings pretty.

Local Open Scope string_scope.
Local Open Scope list_scope.
Local Open Scope nat_scope.

(** ** Python values and the object store *)

(** A location is the index of an object in the store. *)
Abbreviation loc := nat (only parsing).

(** Immediate values and references.  A float is represented by the
    rational number it denotes, and the two infinities by [2^1024] and its
    opposite; the arithmetic rounds to binary64 (see [round_binary64]).
    NaN and the sign of zero are not represented. *)
Inductive val :=
| VNone
| VBool (b : bool)
| VInt (z : Z)
| VFloat (q : Q)
| VStr (s : string)
| VRef (l : loc).

(** Store objects: a [dict] with string keys, or a [list]. *)
Inductive obj :=
| ODict (d : gmap string val)
| OList (xs : list val).

(** The store grows at its end: object [l] is the [l]-th allocated. *)
Abbreviation heap := (list obj) (only parsing).

(** The exceptions the modelled operations can raise. *)
Inductive exn := TypeError | OverflowError.

Inductive outcome (A : Type) :=
| Ok (a : A)
| Raise (e : exn).
Arguments Ok {A} a.
Arguments Raise {A} e.

(** Computations read and update the store and either return or raise; the
    store updates made before a raise remain. *)
Definition M (A : Type) := heap -> heap * outcome A.

Definition ret {A} (a : A) : M A := fun h => (h, Ok a).

Definition raise {A} (e : exn) : M A := fun h => (h, Raise e).

Definition bind {A B} (c : M A) (k : A -> M B) : M B :=
  fun h =>
    match c h with
    | (h1, Ok a) => k a h1
    | (h1, Raise e) => (h1, Raise e)
    end.

Definition lift {A} (o : outcome A) : M A := fun h => (h, o).

Declare Scope py_scope.
Delimit Scope py_scope with py.
Notation "x <~ c ; k" := (bind c (fun x => k))
  (at level 100, c at next level, right associativity) : py_scope.
Notation "c ;; k" := (bind c (fun _ => k))
  (at level 100, right associativity) : py_scope.
Local Open Scope py_scope.

Definition is_ok {A} (o : outcome A) : bool :=
  match o with Ok _ => true | Raise _ => false end.

(** *** Primitive operations on store objects *)

(** [object()] allocation: the new object gets the next location. *)
Definition alloc (o : obj) : M loc := fun h => (h ++ [o], Ok (length h)).

(** [d[k] = v]; on a list a string subscript is a [TypeError]. *)
Definition dict_setitem (l : loc) (k : string) (v : val) : M unit := fun h =>
  match h !! l with
  | Some (ODict d) => (<[l := ODict (<[k := v]> d)]> h, Ok tt)
  | _ => (h, Raise TypeError)
  end.

(** [d.pop(k, default)]; [list.pop] takes at most one argument. *)
Definition dict_pop (l : loc) (k : string) (default : val) : M val := fun h =>
  match h !! l with
  | Some (ODict d) =>
      match d !! k with
      | Some v => (<[l := ODict (delete k d)]> h, Ok v)
      | None => (h, Ok default)
      end
  | _ => (h, Raise TypeError)
  end.

(** [d.get(k)]. *)
Definition dict_get (l : loc) (k : string) : M val := fun h =>
  match h !! l with
  | Some (ODict d) => (h, Ok (default VNone (d !! k)))
  | _ => (h, Raise TypeError)
  end.

(** [xs.append(v)]. *)
Definition list_append (l : loc) (v : val) : M unit := fun h =>
  match h !! l with
  | Some (OList xs) => (<[l := OList (xs ++ [v])]> h, Ok tt)
  | _ => (h, Raise TypeError)
  end.

(** [list(xs)]: a new list object with the same elements. *)
Definition list_copy (l : loc) : M loc := fun h =>
  match h !! l with
  | Some (OList xs) => alloc (OList xs) h
  | _ => (h, Raise TypeError)
  end.

(** *** Truth value and arithmetic *)

(** Python truth value testing: [None], [False], zero, and empty strings
    and containers are false. *)
Definition is_truthy (h : heap) (v : val) : bool :=
  match v with
  | VNone => false
  | VBool b => b
  | VInt z => negb (z =? 0)%Z
  | VFloat q => negb (Qnum q =? 0)%Z
  | VStr s => negb (String.eqb s "")
  | VRef l =>
      match h !! l with
      | Some (ODict d) => negb (bool_decide (d = ∅))
      | Some (OList xs) => negb (bool_decide (length xs = 0))
      | None => true
      end
  end.

(** *** Binary64 arithmetic *)

(** The exponent of a positive rational [a/b]: the [e] with
    [2^e <= a/b < 2^(e+1)]. *)
Definition floor_log2 (a b : positive) : Z :=
  let e := (Z.log2 (Z.pos a) - Z.log2 (Z.pos b))%Z in
  if (0 <=? e)%Z
  then (if (Z.pos b * 2 ^ e <=? Z.pos a)%Z then e else e - 1)%Z
  else (if (Z.pos b <=? Z.pos a * 2 ^ (- e))%Z then e else e - 1)%Z.

(** The integer nearest to [num/den], the even one of two equally near. *)
Definition round_half_even (num den : Z) : Z :=
  let q := (num / den)%Z in
  match (2 * (num mod den) ?= den)%Z with
  | Lt => q
  | Gt => (q + 1)%Z
  | Eq => if Z.even q then q else (q + 1)%Z
  end.

Definition infinity : Q := inject_Z (2 ^ 1024).

Definition is_infinite (q : Q) : bool :=
  (2 ^ 1024 * Z.pos (Qden q) <=? Z.abs (Qnum q))%Z.

(** The binary64 nearest to a positive rational [a/b]: 53 significant
    bits, exponents from [-1022] (below, the spacing stays [2^-1074]), ties
    to the even significand, infinity from [2^1024 - 2^970] on.  The
    result is in lowest terms. *)
Definition round_magnitude (a b : positive) : Q :=
  let e := floor_log2 a b in
  let k := (Z.max e (-1022) - 52)%Z in
  if (0 <=? k)%Z
  then let m := round_half_even (Z.pos a) (Z.pos b * 2 ^ k) in
       if (2 ^ 1024 <=? m * 2 ^ k)%Z then infinity else inject_Z (m * 2 ^ k)
  else Qred (round_half_even (Z.pos a * 2 ^ (- k)) (Z.pos b)
             # Z.to_pos (2 ^ (- k))).

Definition round_binary64 (a : Z) (b : positive) : Q :=
  match a with
  | Z0 => 0
  | Zpos p => round_magnitude p b
  | Zneg p => - round_magnitude p b
  end.

Definition round_float (q : Q) : Q := round_binary64 (Qnum q) (Qden q).

Arguments round_binary64 : simpl never.

(** Integers of this magnitude or more do not convert to a float: the
    nearest binary64 would be [2^1024]. *)
Definition float_limit : Z := (2 ^ 1024 - 2 ^ 970)%Z.

(** [float(z)]: the nearest binary64, or [OverflowError]. *)
Definition int_to_float (z : Z) : outcome Q :=
  if (Z.abs z <? float_limit)%Z
  then Ok (round_binary64 z 1)
  else Raise OverflowError.

(** [a - b] where [a] is an [int].  With a float [b], [a] is converted
    and the difference rounded; it is infinite when [b] is. *)
Definition py_int_sub (a : Z) (b : val) : outcome val :=
  match b with
  | VInt z => Ok (VInt (a - z)%Z)
  | VBool c => Ok (VInt (a - Z.b2z c)%Z)
  | VFloat q =>
      match int_to_float a with
      | Ok qa =>
          Ok (VFloat (if is_infinite q then (- q)%Q
                      else round_float (qa - q)%Q))
      | Raise e => Raise e
      end
  | _ => Raise TypeError
  end.

(** [a / n] for a positive [int] constant [n]: true division, the result
    is a float.  For an [int] dividend the result is the binary64 nearest
    to the quotient, which must be in the float range; a float dividend is
    divided by [float(n)]. *)
Definition py_truediv (a : val) (n : positive) : outcome val :=
  match a with
  | VInt z =>
      if (Z.abs z <? float_limit * Z.pos n)%Z
      then Ok (VFloat (round_binary64 z n))
      else Raise OverflowError
  | VBool c => Ok (VFloat (round_binary64 (Z.b2z c) n))
  | VFloat q =>
      match int_to_float (Z.pos n) with
      | Ok qn =>
          Ok (VFloat (if is_infinite q then q else round_float (q / qn)%Q))
      | Raise e => Raise e
      end
  | _ => Raise TypeError
  end.

Definition is_none (v : val) : bool :=
  match v with VNone => true | _ => false end.

(** ** The middleware *)

(** The attributes of [MiddlewareContext] the middleware reads.  The
    context belongs to the caller; the middleware never assigns its
    attributes, so a call receives their values at call time.  [metadata]
    is a reference to the shared dictionary. *)
Record MiddlewareContext := {
  agent_name : string;
  method : string;
  metadata : loc
}.

(** A [DataLineageMiddleware] instance: [self._records] refers to its list. *)
Record DataLineageMiddleware := { _records : loc }.

(** [__init__] *)
Definition init : M DataLineageMiddleware :=
  l <~ alloc (OList []) ;
  ret {| _records := l |}.

(** The [records] property: [list(self._records)]. *)
Definition records (self : DataLineageMiddleware) : M loc :=
  list_copy (_records self).

(** [before_run].  [lineage_id] is the value of [uuid.uuid4().hex] and
    [now] the value of [time.monotonic_ns()] in this call. *)
Definition before_run (self : DataLineageMiddleware) (lineage_id : string)
    (now : Z) (context : MiddlewareContext) : M unit :=
  dict_setitem (metadata context) "lineage_id" (VStr lineage_id) ;;
  dict_setitem (metadata context) "lineage_agent" (VStr (agent_name context)) ;;
  dict_setitem (metadata context) "lineage_start_ns" (VInt now).

(** The conditional expression computing [elapsed_ms]. *)
Definition elapsed_of (now : Z) (start_ns : val) : M val := fun h =>
  if is_truthy h start_ns
  then lift (match py_int_sub now start_ns with
             | Ok d => py_truediv d 1000000
             | Raise e => Raise e
             end) h
  else ret VNone h.

(** The record dictionary built by [after_run]. *)
Definition make_record (lid : val) (context : MiddlewareContext)
    (elapsed_ms : val) (result : val) : gmap string val :=
  <["lineage_id" := lid]>
  (<["agent_name" := VStr (agent_name context)]>
  (<["method" := VStr (method context)]>
  (<["elapsed_ms" := elapsed_ms]>
  (<["has_result" := VBool (negb (is_none result))]> ∅)))).

(** [after_run].  [now] is the value [time.monotonic_ns()] has in this
    call (it is read only when the start entry is true). *)
Definition after_run (self : DataLineageMiddleware) (now : Z)
    (context : MiddlewareContext) (result : val) : M val :=
  start_ns <~ dict_pop (metadata context) "lineage_start_ns" VNone ;
  elapsed_ms <~ elapsed_of now start_ns ;
  lid <~ dict_get (metadata context) "lineage_id" ;
  record <~ alloc (ODict (make_record lid context elapsed_ms result)) ;
  list_append (_records self) (VRef record) ;;
  ret result.

(** *** Runs of calls *)

(** One call of the agent runtime into the middleware.  The values read
    from [uuid4] and from the monotonic clock are part of the call. *)
Inductive call :=
| BeforeRun (lineage_id : string) (now : Z) (context : MiddlewareContext)
| AfterRun (now : Z) (context : MiddlewareContext) (result : val).

Definition run_call (self : DataLineageMiddleware) (c : call) : M val :=
  match c with
  | BeforeRun lineage_id now context =>
      before_run self lineage_id now context ;; ret VNone
  | AfterRun now context result => after_run self now context result
  end.

(** A run: the calls are made one after the other; a call that raises
    does not stop the runtime from making the next one. *)
Fixpoint run_calls (self : DataLineageMiddleware) (cs : list call) (h : heap)
    : heap * list (outcome val) :=
  match cs with
  | [] => (h, [])
  | c :: cs' =>
      let '(h1, o) := run_call self c h in
      let '(h2, os) := run_calls self cs' h1 in
      (h2, o :: os)
  end.

(** *** Reading the store *)

(** The entry [k] of the dictionary at [l]. *)
Definition entry (h : heap) (l : loc) (k : string) : option val :=
  match h !! l with
  | Some (ODict d) => d !! k
  | _ => None
  end.

(** The elements of the list at [l]. *)
Definition elements_at (h : heap) (l : loc) : list val :=
  match h !! l with
  | Some (OList xs) => xs
  | _ => []
  end.

(** The log of a middleware: the elements of [self._records]. *)
Definition log (self : DataLineageMiddleware) (h : heap) : list val :=
  elements_at h (_records self).

(** Field [k] of the record a log element refers to. *)
Definition field (h : heap) (k : string) (v : val) : option val :=
  match v with
  | VRef r => entry h r k
  | _ => None
  end.


(** *** Intermediate stores and values *)

(** The metadata dictionary [d] after [before_run]. *)
Definition stamped (lineage_id : string) (now : Z) (agent : string)
    (d : gmap string val) : gmap string val :=
  <["lineage_start_ns" := VInt now]>
  (<["lineage_agent" := VStr agent]>
  (<["lineage_id" := VStr lineage_id]> d)).

(** The value [pop] returns for the start key of [d]. *)
Definition start_entry (d : gmap string val) : val :=
  default VNone (d !! "lineage_start_ns").

(** The store after [pop] on the metadata at [m]. *)
Definition popped (m : loc) (d : gmap string val) (h : heap) : heap :=
  <[m := ODict (delete "lineage_start_ns" d)]> h.

(** The store after the record [rec] was allocated in [h1] and appended
    to the log [xs] of [self]. *)
Definition recorded (self : DataLineageMiddleware) (xs : list val)
    (rec : gmap string val) (h1 : heap) : heap :=
  <[_records self := OList (xs ++ [VRef (length h1)])]> (h1 ++ [ODict rec]).

(** The difference of two clock values whose quotient by [10^6] is in the
    float range. *)
Definition elapsed_in_range (now start : Z) : Prop :=
  (Z.abs (now - start) < float_limit * 1000000)%Z.

(** The exception with which [(now - start_ns) / 1_000_000] ends, if any,
    by the kind of the start entry: a value that is not a number cannot be
    subtracted; the quotient of two integers must be in the float range; an
    integer clock value subtracted from a float must convert to a float. *)
Definition elapsed_error (now : Z) (start_ns : val) : option exn :=
  match start_ns with
  | VInt z =>
      if (Z.abs (now - z) <? float_limit * 1000000)%Z
      then None else Some OverflowError
  | VBool c =>
      if (Z.abs (now - Z.b2z c) <? float_limit * 1000000)%Z
      then None else Some OverflowError
  | VFloat _ =>
      if (Z.abs now <? float_limit)%Z then None else Some OverflowError
  | VNone | VStr _ | VRef _ => Some TypeError
  end.

(** *** Reading runs *)

Definition metadata_of (c : call) : loc :=
  match c with
  | BeforeRun _ _ context => metadata context
  | AfterRun _ context _ => metadata context
  end.


(** The number of [after_run] calls of a run that returned normally. *)
Fixpoint completed (cs : list call) (os : list (outcome val)) : nat :=
  match cs, os with
  | AfterRun _ _ _ :: cs', Ok _ :: os' => S (completed cs' os')
  | _ :: cs', _ :: os' => completed cs' os'
  | _, _ => 0
  end.

(** A run follows the two-phase protocol when, on every metadata mapping,
    [before_run] and [after_run] alternate, starting with [before_run].
    [pending] holds the mappings with a [before_run] not yet followed by
    its [after_run]; runs on different mappings interleave freely. *)
Fixpoint paired (pending : gset nat) (cs : list call) : bool :=
  match cs with
  | [] => true
  | BeforeRun _ _ context :: cs' =>
      bool_decide (metadata context ∉ pending)
      && paired ({[metadata context]} ∪ pending) cs'
  | AfterRun _ context _ :: cs' =>
      bool_decide (metadata context ∈ pending)
      && paired (pending ∖ {[metadata context]}) cs'
  end.

(** A run is within the protocol of the agent runtime when every
    [after_run] on a metadata mapping either follows a [before_run] on that
    mapping which no other [after_run] has followed yet, or comes on a
    mapping that has received no [before_run] at all.  [pending] holds the
    mappings of the first kind, [seen] those that received a [before_run].
    Every [paired] run is within the protocol. *)
Fixpoint in_protocol (pending seen : gset nat) (cs : list call) : bool :=
  match cs with
  | [] => true
  | BeforeRun _ _ context :: cs' =>
      in_protocol ({[metadata context]} ∪ pending)
        ({[metadata context]} ∪ seen) cs'
  | AfterRun _ context _ :: cs' =>
      (bool_decide (metadata context ∈ pending)
       || bool_decide (metadata context ∉ seen))
      && in_protocol (pending ∖ {[metadata context]}) seen cs'
  end.



(** The part of a lineage record that does not depend on the clock. *)
Record LineageRecord := {
  rec_lineage_id : val;
  rec_agent_name : string;
  rec_method : string;
  rec_has_result : bool
}.

(** The log element [v] refers to a record dictionary with these fields. *)
Definition summarised (h : heap) (v : val) (r : LineageRecord) : Prop :=
  field h "lineage_id" v = Some (rec_lineage_id r) ∧
  field h "agent_name" v = Some (VStr (rec_agent_name r)) ∧
  field h "method" v = Some (VStr (rec_method r)) ∧
  field h "has_result" v = Some (VBool (rec_has_result r)).

(** The records a run is expected to append, from the calls and their
    outcomes alone: one per [after_run] that returned, in the order of
    these calls.  [cur l] is the value under [lineage_id] in the metadata
    at [l]; a [before_run] that returned has replaced it. *)
Fixpoint records_of_run (cur : nat → val) (cs : list call)
    (os : list (outcome val)) : list LineageRecord :=
  match cs, os with
  | BeforeRun lineage_id _ context :: cs', Ok _ :: os' =>
      records_of_run (<[metadata context := VStr lineage_id]> cur) cs' os'
  | AfterRun _ context result :: cs', Ok _ :: os' =>
      {| rec_lineage_id := cur (metadata context);
         rec_agent_name := agent_name context;
         rec_method := method context;
         rec_has_result := negb (is_none result) |}
      :: records_of_run cur cs' os'
  | _ :: cs', Raise _ :: os' => records_of_run cur cs' os'
  | _, _ => []
  end.

(** The value under [lineage_id] in the dictionary at [l], as [get]
    returns it. *)
Definition lineage_id_at (h : heap) (l : loc) : val :=
  default VNone (entry h l "lineage_id").

(** Some metadata dictionary of [h] holds a reference to [s] as its start
    entry. *)
Definition start_refers (h : heap) (s : loc) : Prop :=
  ∃ l d, h !! l = Some (ODict d) ∧ d !! "lineage_start_ns" = Some (VRef s).

(** The effect of one call on a store in which the log of [self] is the
    list [xs]. *)
Inductive call_step (self : DataLineageMiddleware) (xs : list val) (h : heap)
    : call → heap → outcome val → Prop :=
| step_no_mapping c :
    (∀ d, h !! metadata_of c ≠ Some (ODict d)) →
    call_step self xs h c h (Raise TypeError)
| step_before lineage_id now ctx d :
    h !! metadata ctx = Some (ODict d) →
    call_step self xs h (BeforeRun lineage_id now ctx)
      (<[metadata ctx := ODict (stamped lineage_id now (agent_name ctx) d)]> h)
      (Ok VNone)
| step_after_raise now ctx result d ex :
    h !! metadata ctx = Some (ODict d) →
    (elapsed_of now (start_entry d) (popped (metadata ctx) d h)).2 = Raise ex →
    call_step self xs h (AfterRun now ctx result)
      (popped (metadata ctx) d h) (Raise ex)
| step_after now ctx result d e :
    h !! metadata ctx = Some (ODict d) →
    (elapsed_of now (start_entry d) (popped (metadata ctx) d h)).2 = Ok e →
    call_step self xs h (AfterRun now ctx result)
      (recorded self xs
         (make_record (default VNone (d !! "lineage_id")) ctx e result)
         (popped (metadata ctx) d h))
      (Ok result).

(** *** The objects of the test fixtures *)

(** A new middleware at location [0], a new context with an empty
    metadata dictionary at location [1]. *)
Definition fixture_middleware : DataLineageMiddleware := {| _records := 0 |}.

Definition fake_context : MiddlewareContext :=
  {| agent_name := "test-agent"; method := "run"; metadata := 1 |}.

Definition fixture_store : list obj := [OList []; ODict ∅].

(** Two contexts, each with its own metadata dictionary. *)
Definition context_a : MiddlewareContext :=
  {| agent_name := "agent-0"; method := "run"; metadata := 1 |}.

Definition context_b : MiddlewareContext :=
  {| agent_name := "agent-1"; method := "run_stream"; metadata := 2 |}.

Definition two_context_store : list obj := [OList []; ODict ∅; ODict ∅].

(** ** Pipeline steps, tools and client *)

(** The exceptions of the steps, the tools and the client.  [Builtin] is
    an exception of a primitive operation; [External] is an exception
    raised by code outside the repository (the HTTP library), named by a
    description. *)
Inductive error :=
| ValueError (msg : string)
| KeyError (key : string)
| AttributeError
| Builtin (e : exn)
| External (description : string).

Inductive answer (A : Type) :=
| Return (a : A)
| Throw (e : error).
Arguments Return {A} a.
Arguments Throw {A} e.

Definition Step (A : Type) := list obj → list obj * answer A.

Definition step_ret {A} (a : A) : Step A := fun h => (h, Return a).

Definition throw {A} (e : error) : Step A := fun h => (h, Throw e).

Definition step_bind {A B} (c : Step A) (k : A → Step B) : Step B :=
  fun h =>
    match c h with
    | (h1, Return a) => k a h1
    | (h1, Throw e) => (h1, Throw e)
    end.

(** A primitive operation inside a step. *)
Definition of_M {A} (c : M A) : Step A :=
  fun h =>
    match c h with
    | (h1, Ok a) => (h1, Return a)
    | (h1, Raise e) => (h1, Throw (Builtin e))
    end.

Notation "x <<- c ; k" := (step_bind c (fun x => k))
  (at level 100, c at next level, right associativity) : py_scope.
Notation "c ;;; k" := (step_bind c (fun _ => k))
  (at level 100, right associativity) : py_scope.

(** [d.setdefault(k, default)]: the attribute is looked up first (only a
    dictionary has it), then [default] is evaluated, then the key is
    looked up and set if missing. *)
Definition dict_setdefault (l : loc) (k : string) (default : Step val)
    : Step val := fun h =>
  match h !! l with
  | Some (ODict _) =>
      match default h with
      | (h1, Return v) =>
          match h1 !! l with
          | Some (ODict d) =>
              match d !! k with
              | Some x => (h1, Return x)
              | None => (<[l := ODict (<[k := v]> d)]> h1, Return v)
              end
          | _ => (h1, Throw AttributeError)
          end
      | (h1, Throw e) => (h1, Throw e)
      end
  | _ => (h, Throw AttributeError)
  end.

(** The expression [[]]: a new empty list. *)
Definition new_list : Step val :=
  l <<- of_M (alloc (OList [])) ; step_ret (VRef l).

(** [d[k]]. *)
Definition dict_getitem (l : loc) (k : string) : Step val := fun h =>
  match h !! l with
  | Some (ODict d) =>
      match d !! k with
      | Some v => (h, Return v)
      | None => (h, Throw (KeyError k))
      end
  | _ => (h, Throw (Builtin TypeError))
  end.

(** [target.extend(items)]: only a list has [extend]. *)
Definition list_extend (target : val) (items : list val) : Step unit := fun h =>
  match target with
  | VRef l =>
      match h !! l with
      | Some (OList xs) => (<[l := OList (xs ++ items)]> h, Return tt)
      | _ => (h, Throw AttributeError)
      end
  | _ => (h, Throw AttributeError)
  end.

(** [target.append({...})]: the attribute is looked up first, then the
    dictionary [o] is built, then it is appended. *)
Definition list_append_new (target : val) (o : gmap string val) : Step unit :=
  fun h =>
    match target with
    | VRef l =>
        match h !! l with
        | Some (OList xs) =>
            (<[l := OList (xs ++ [VRef (length h)])]> (h ++ [ODict o]), Return tt)
        | _ => (h, Throw AttributeError)
        end
    | _ => (h, Throw AttributeError)
    end.

(** [dict(inputs)] for a dictionary [inputs]: a new dictionary with the
    same entries.  [inputs] is a dictionary by the signatures of the
    callers; the conversion of other iterables is not modelled and gives
    [TypeError] here. *)
Definition dict_copy (inputs : val) : Step loc := fun h =>
  match inputs with
  | VRef l =>
      match h !! l with
      | Some (ODict d) => (h ++ [ODict d], Return (length h))
      | _ => (h, Throw (Builtin TypeError))
      end
  | _ => (h, Throw (Builtin TypeError))
  end.

(** [a + n] (and [a += n]) where [n] is an [int]. *)
Definition py_add_int (a : val) (n : Z) : outcome val :=
  match a with
  | VInt z => Ok (VInt (z + n)%Z)
  | VBool c => Ok (VInt (Z.b2z c + n)%Z)
  | VFloat q =>
      match int_to_float n with
      | Ok qn =>
          Ok (VFloat (if is_infinite q then q else round_float (q + qn)%Q))
      | Raise e => Raise e
      end
  | _ => Raise TypeError
  end.

(** [sep.join(parts)]. *)
Fixpoint join (sep : string) (parts : list string) : string :=
  match parts with
  | [] => ""
  | [p] => p
  | p :: rest => p +:+ sep +:+ join sep rest
  end.

(** [PipelineContext], as far as the steps use it. *)
Module PipelineContext.
Record t := {
  correlation_id : val;
  metadata : loc
}.
End PipelineContext.

(** *** [QualityGateStep] *)

Module QualityGateStep.

(** What a call [check(inputs)] gives: the value returned, or an exception
    (of class [Exception]) with its text [str(exc)]. *)
Inductive verdict :=
| Passed (v : val)
| Raised (exc : string).

(** A rule: a callable on the inputs; it may read and write the store. *)
Definition check := val → list obj → list obj * verdict.

(** An element of the [rules] argument: a callable alone, or a pair of a
    callable and a description. *)
Inductive rule :=
| Callable (c : check)
| Pair (c : check) (description : string).

Record t := { _rules : list (check * string) }.

(** The loop of [__init__], from index [idx] on. *)
Fixpoint enumerate_rules (idx : nat) (rules : list rule)
    : list (check * string) :=
  match rules with
  | [] => []
  | Pair c description :: rest =>
      (c, description) :: enumerate_rules (S idx) rest
  | Callable c :: rest =>
      (c, "rule_" +:+ pretty idx) :: enumerate_rules (S idx) rest
  end.

(** [__init__] *)
Definition init (rules : list rule) : t :=
  {| _rules := enumerate_rules 0 rules |}.

(** The loop of [execute] over the rules, with the violations so far. *)
Fixpoint check_rules (rules : list (check * string)) (inputs : val)
    (violations : list string) (h : heap) : list obj * list string :=
  match rules with
  | [] => (h, violations)
  | (check, description) :: rest =>
      match check inputs h with
      | (h1, Raised exc) =>
          check_rules rest inputs (violations ++ [description +:+ ": " +:+ exc]) h1
      | (h1, Passed passed) =>
          if is_truthy h1 passed
          then check_rules rest inputs violations h1
          else check_rules rest inputs (violations ++ [description]) h1
      end
  end.

(** The text of the [ValueError]. *)
Definition failure_message (violations : list string) : string :=
  "Quality gate failed with " +:+ pretty (length violations)
  +:+ " violation(s): " +:+ join "; " violations.

(** [execute] *)
Definition execute (self : t) (context : PipelineContext.t) (inputs : val)
    : Step val := fun h =>
  let '(h1, violations) := check_rules (_rules self) inputs [] h in
  match violations with
  | _ :: _ =>
      (target <<- dict_setdefault (PipelineContext.metadata context)
                    "quality_violations" new_list ;
       list_extend target (VStr <$> violations) ;;;
       throw (ValueError (failure_message violations))) h1
  | [] =>
      (dict_setdefault (PipelineContext.metadata context)
         "quality_checks_passed" (step_ret (VInt 0)) ;;;
       current <<- dict_getitem (PipelineContext.metadata context)
                     "quality_checks_passed" ;
       total <<- of_M (lift (py_add_int current
                                (Z.of_nat (length (_rules self))))) ;
       of_M (dict_setitem (PipelineContext.metadata context)
               "quality_checks_passed" total) ;;;
       step_ret inputs) h1
  end.

(** A rule that does not write the store. *)
Definition read_only (c : check) : Prop := ∀ v (h : heap), (c v h).1 = h.

(** The violation a rule reports on [inputs] in the store [h], if any. *)
Definition violation (inputs : val) (h : heap) (r : check * string)
    : option string :=
  match (r.1 inputs h).2 with
  | Raised exc => Some (r.2 +:+ ": " +:+ exc)
  | Passed passed => if is_truthy h passed then None else Some r.2
  end.

End QualityGateStep.

(** *** [DataStarterClient] *)

Module DataStarterClient.

Inductive verb := GET | POST.

(** A request handed to the HTTP client: the verb, the path below
    [base_url], and the [json] and [params] arguments when given. *)
Record request := {
  verb_of : verb;
  path : string;
  json : option val;
  params : option val
}.

(** The HTTP library as the methods use it: [send] is [client.get] or
    [client.post] on the client that [_ensure_client] returns,
    [raise_for_status] and [body] (for [response.json()]) are the methods
    of the response.  They belong to [httpx] and are parameters here. *)
Record httpx (R : Type) := {
  send : request → Step R;
  raise_for_status : R → Step unit;
  body : R → Step val
}.
Arguments send {R} _ _ _.
Arguments raise_for_status {R} _ _ _.
Arguments body {R} _ _ _.

(** The last three lines of every method. *)
Definition call {R} (lib : httpx R) (req : request) : Step val :=
  response <<- send lib req ;
  raise_for_status lib response ;;;
  body lib response.

(** The text an f-string inserts for a value: the string itself for a
    [str]; for other values, which the signatures exclude, the text is
    left to [str_of]. *)
Definition format_value (str_of : list obj → val → string) (h : heap)
    (v : val) : string :=
  match v with
  | VStr s => s
  | _ => str_of h v
  end.

(** The payload of [enrich] and [preview_enrichment] before the optional
    key is added. *)
Definition enrichment_payload (type strategy parameters : val)
    : gmap string val :=
  <["type" := type]>
  (<["strategy" := strategy]>
  (<["parameters" := parameters]> ∅)).

Definition post_enrichment {R} (lib : httpx R) (endpoint : string)
    (type strategy parameters tenant_id : val) : Step val :=
  payload <<- of_M (alloc (ODict (enrichment_payload type strategy parameters))) ;
  (if is_none tenant_id then step_ret tt
   else of_M (dict_setitem payload "tenantId" tenant_id)) ;;;
  call lib {| verb_of := POST; path := endpoint;
              json := Some (VRef payload); params := None |}.

(** [enrich] *)
Definition enrich {R} (lib : httpx R) (type strategy parameters tenant_id : val)
    : Step val :=
  post_enrichment lib "/api/v1/enrichment" type strategy parameters tenant_id.

(** [preview_enrichment] *)
Definition preview_enrichment {R} (lib : httpx R)
    (type strategy parameters tenant_id : val) : Step val :=
  post_enrichment lib "/api/v1/enrichment/preview" type strategy parameters
    tenant_id.

(** [start_job] *)
Definition start_job {R} (lib : httpx R) (job_type parameters : val)
    : Step val :=
  payload <<- of_M (alloc (ODict (<["jobType" := job_type]>
                                   (<["parameters" := parameters]> ∅)))) ;
  call lib {| verb_of := POST; path := "/api/v1/jobs";
              json := Some (VRef payload); params := None |}.

(** [check_job] *)
Definition check_job {R} (lib : httpx R) (str_of : list obj → val → string)
    (execution_id : val) : Step val := fun h =>
  call lib {| verb_of := GET;
              path := "/api/v1/jobs/" +:+ format_value str_of h execution_id;
              json := None; params := None |} h.

(** [collect_results] *)
Definition collect_results {R} (lib : httpx R)
    (str_of : list obj → val → string) (execution_id : val) : Step val :=
  fun h =>
    call lib {| verb_of := GET;
                path := "/api/v1/jobs/" +:+ format_value str_of h execution_id
                        +:+ "/results";
                json := None; params := None |} h.

(** [list_providers] *)
Definition list_providers {R} (lib : httpx R) (type : val) : Step val :=
  query <<- of_M (alloc (ODict ∅)) ;
  (if is_none type then step_ret tt
   else of_M (dict_setitem query "type" type)) ;;;
  call lib {| verb_of := GET; path := "/api/v1/providers";
              json := None; params := Some (VRef query) |}.

(** [execute_operation] *)
Definition execute_operation {R} (lib : httpx R)
    (str_of : list obj → val → string) (type operation_id request : val)
    : Step val := fun h =>
  call lib {| verb_of := POST;
              path := "/api/v1/operations/" +:+ format_value str_of h type
                      +:+ "/" +:+ format_value str_of h operation_id;
              json := Some request; params := None |} h.

(** **** The HTTP client the instance holds *)

(** The calls the instance makes on the library over its life: the
    construction of an [AsyncClient] and [aclose] on one.  A client is
    named by the number of clients constructed before it. *)
Inductive event :=
| Constructed (client : nat) (base_url : string) (timeout : Q)
| Requested (client : nat)
| Closed (client : nat).

Record t := {
  base_url : string;
  timeout : Q;
  _client : option nat
}.

(** The number of clients constructed so far. *)
Fixpoint constructed (w : list event) : nat :=
  match w with
  | [] => 0
  | Constructed _ _ _ :: w' => S (constructed w')
  | _ :: w' => constructed w'
  end.

(** [_ensure_client] *)
Definition _ensure_client (self : t) (w : list event)
    : t * list event * nat :=
  match _client self with
  | None =>
      let client := constructed w in
      ({| base_url := base_url self; timeout := timeout self;
          _client := Some client |},
       w ++ [Constructed client (base_url self) (timeout self)],
       client)
  | Some client => (self, w, client)
  end.

(** [close] *)
Definition close (self : t) (w : list event) : t * list event :=
  match _client self with
  | Some client =>
      ({| base_url := base_url self; timeout := timeout self;
          _client := None |},
       w ++ [Closed client])
  | None => (self, w)
  end.

(** The first lines of every request method: [_ensure_client], then
    [get] or [post] on the client it returned. *)
Definition request_with (self : t) (w : list event) : t * list event :=
  let '(self1, w1, client) := _ensure_client self w in
  (self1, w1 ++ [Requested client]).

(** What the owner of an instance does with it: call one of the request
    methods, or [close]. *)
Inductive use := Request | Close.

(** A life of an instance. *)
Fixpoint life (uses : list use) (self : t) (w : list event)
    : t * list event :=
  match uses with
  | [] => (self, w)
  | Request :: rest =>
      let '(self1, w1) := request_with self w in life rest self1 w1
  | Close :: rest =>
      let '(self1, w1) := close self w in life rest self1 w1
  end.

(** The events [w], read with the clients [opened] open at their start:
    a client is constructed only while none is open, and is used and
    closed only while open.  The result is the clients open at the end. *)
Fixpoint opened_after (w : list event) (opened : list nat)
    : option (list nat) :=
  match w with
  | [] => Some opened
  | Constructed client _ _ :: w' =>
      match opened with
      | [] => opened_after w' [client]
      | _ => None
      end
  | Requested client :: w' =>
      if bool_decide (client ∈ opened) then opened_after w' opened else None
  | Closed client :: w' =>
      if bool_decide (client ∈ opened)
      then opened_after w' (filter (λ c, c ≠ client) opened)
      else None
  end.

End DataStarterClient.

(** *** [EnrichmentStep] *)

Module EnrichmentStep.

(** The attributes besides [_client], which is the HTTP library here. *)
Record t := {
  _enrichment_type : val;
  _strategy : val
}.

(** The dictionary appended to [enrichment_results]. *)
Definition summary (self : t) (context : PipelineContext.t)
    : gmap string val :=
  <["type" := _enrichment_type self]>
  (<["strategy" := _strategy self]>
  (<["correlation_id" := PipelineContext.correlation_id context]> ∅)).

(** The request [execute] makes in a store [h]: the payload is the second
    object it allocates. *)
Definition request (h : heap) : DataStarterClient.request :=
  {| DataStarterClient.verb_of := DataStarterClient.POST;
     DataStarterClient.path := "/api/v1/enrichment";
     DataStarterClient.json := Some (VRef (S (length h)));
     DataStarterClient.params := None |}.

(** The store in which the request is made, for inputs with the entries
    [d]: the copy of the inputs without [tenant_id], then the payload. *)
Definition request_store (self : t) (h : heap) (d : gmap string val)
    : list obj :=
  let tenant := default VNone (d !! "tenant_id") in
  let payload :=
    DataStarterClient.enrichment_payload (_enrichment_type self)
      (_strategy self) (VRef (length h)) in
  h ++ [ODict (delete "tenant_id" d);
        ODict (if is_none tenant then payload
               else <["tenantId" := tenant]> payload)].

(** The statements of [execute] after the call of the client. *)
Definition note_result (self : t) (context : PipelineContext.t) (result : val)
    : Step val :=
  target <<- dict_setdefault (PipelineContext.metadata context)
               "enrichment_results" new_list ;
  list_append_new target (summary self context) ;;;
  step_ret result.

(** [execute] *)
Definition execute {R} (lib : DataStarterClient.httpx R) (self : t)
    (context : PipelineContext.t) (inputs : val) : Step val :=
  parameters <<- dict_copy inputs ;
  tenant_id <<- of_M (dict_pop parameters "tenant_id" VNone) ;
  result <<- DataStarterClient.enrich lib (_enrichment_type self)
               (_strategy self) (VRef parameters) tenant_id ;
  note_result self context result.

End EnrichmentStep.

(** *** [DataJobTool] *)

Module DataJobTool.

(** [action == text] for a string literal [text]. *)
Definition is_text (action : val) (text : string) : bool :=
  match action with
  | VStr s => String.eqb s text
  | _ => false
  end.

(** [_execute]; [kwargs] are the keyword arguments of the call. *)
Definition _execute {R} (lib : DataStarterClient.httpx R)
    (str_of : list obj → val → string) (kwargs : gmap string val)
    : Step val := fun h =>
  match kwargs !! "action" with
  | None => (h, Throw (KeyError "action"))
  | Some action =>
      if is_text action "start" then
        let job_type := default VNone (kwargs !! "job_type") in
        (empty <<- of_M (alloc (ODict ∅)) ;
         fun h1 =>
           if is_truthy h1 job_type
           then DataStarterClient.start_job lib job_type
                  (default (VRef empty) (kwargs !! "parameters")) h1
           else (h1, Throw (ValueError
                  "'job_type' is required for the 'start' action"))) h
      else if is_text action "check" then
        let execution_id := default VNone (kwargs !! "execution_id") in
        if is_truthy h execution_id
        then DataStarterClient.check_job lib str_of execution_id h
        else (h, Throw (ValueError
               "'execution_id' is required for the 'check' action"))
      else if is_text action "collect" then
        let execution_id := default VNone (kwargs !! "execution_id") in
        if is_truthy h execution_id
        then DataStarterClient.collect_results lib str_of execution_id h
        else (h, Throw (ValueError
               "'execution_id' is required for the 'collect' action"))
      else
        (h, Throw (ValueError
           ("Unknown action '" +:+ DataStarterClient.format_value str_of h action
            +:+ "'. Must be one of: start, check, collect")))
  end.

End DataJobTool.

(** ** Equations of the two hooks *)

Section equations.
Variable self : DataLineageMiddleware.

Lemma insert_lookup_same (h : heap) (l : loc) (o : obj) :
  h !! l = Some o → <[l := o]> h = h.
Proof. intros H. by apply list_insert_id. Qed.

Lemma before_run_eq lineage_id now ctx (h : heap) d :
  h !! metadata ctx = Some (ODict d) →
  before_run self lineage_id now ctx h =
    (<[metadata ctx := ODict (stamped lineage_id now (agent_name ctx) d)]> h,
     Ok tt).
Proof.
  intros Hm. pose proof (lookup_lt_Some _ _ _ Hm) as Hlt.
  unfold before_run, bind, dict_setitem, stamped. rewrite Hm.
  rewrite list_lookup_insert_eq by done.
  rewrite list_lookup_insert_eq by (by rewrite length_insert).
  by rewrite !list_insert_insert_eq.
Qed.

Lemma before_run_not_dict lineage_id now ctx (h : heap) :
  (∀ d, h !! metadata ctx ≠ Some (ODict d)) →
  before_run self lineage_id now ctx h = (h, Raise TypeError).
Proof.
  intros Hm. unfold before_run, bind, dict_setitem.
  destruct (h !! metadata ctx) as [[d|xs]|] eqn:E; try done.
  by destruct (Hm d).
Qed.

Lemma elapsed_of_heap now v (h : heap) : (elapsed_of now v h).1 = h.
Proof. unfold elapsed_of, lift, ret. by destruct (is_truthy h v). Qed.

Lemma popped_lookup_self m d (h : heap) :
  m < length h → popped m d h !! m = Some (ODict (delete "lineage_start_ns" d)).
Proof. intros. unfold popped. by apply list_lookup_insert_eq. Qed.

Lemma popped_lookup_other m d (h : heap) l :
  l ≠ m → popped m d h !! l = h !! l.
Proof. intros. unfold popped. by apply list_lookup_insert_ne. Qed.

Lemma popped_length m d (h : heap) : length (popped m d h) = length h.
Proof. unfold popped. by rewrite length_insert. Qed.

(** [after_run] on a metadata dictionary [d] and a log [xs]: the start
    key is removed; if computing the elapsed time raises, nothing else
    happens; otherwise a new record is allocated at the next location
    and a reference to it is appended to the log. *)
Lemma after_run_eq now ctx result (h : heap) d xs :
  h !! metadata ctx = Some (ODict d) →
  h !! _records self = Some (OList xs) →
  after_run self now ctx result h =
    let h1 := popped (metadata ctx) d h in
    match (elapsed_of now (start_entry d) h1).2 with
    | Ok e =>
        (<[_records self := OList (xs ++ [VRef (length h)])]>
           (h1 ++ [ODict (make_record (default VNone (d !! "lineage_id"))
                                      ctx e result)]),
         Ok result)
    | Raise ex => (h1, Raise ex)
    end.
Proof.
  intros Hm Hr. pose proof (lookup_lt_Some _ _ _ Hm) as Hlt.
  pose proof (lookup_lt_Some _ _ _ Hr) as Hlr.
  assert (_records self ≠ metadata ctx) as Hne by (intros E; congruence).
  assert (dict_pop (metadata ctx) "lineage_start_ns" VNone h
          = (popped (metadata ctx) d h, Ok (start_entry d))) as Hpop.
  { unfold dict_pop, popped, start_entry. rewrite Hm.
    destruct (d !! "lineage_start_ns") eqn:E; simpl; [done|].
    rewrite delete_id by done. by rewrite insert_lookup_same. }
  unfold after_run, bind at 1. rewrite Hpop. cbv zeta.
  unfold bind at 1.
  pose proof (elapsed_of_heap now (start_entry d) (popped (metadata ctx) d h)) as Hh.
  destruct (elapsed_of now (start_entry d) (popped (metadata ctx) d h))
    as [h1 [e|ex]] eqn:E; simpl in Hh; subst h1; simpl; [|done].
  unfold bind at 1, dict_get. rewrite popped_lookup_self by done.
  rewrite lookup_delete_ne by done.
  unfold bind, alloc, list_append, ret. rewrite popped_length.
  rewrite lookup_app_l by (by rewrite popped_length).
  rewrite popped_lookup_other by done. by rewrite Hr.
Qed.

(** The same equation, with the final store named. *)
Lemma after_run_recorded now ctx result (h : heap) d xs :
  h !! metadata ctx = Some (ODict d) →
  h !! _records self = Some (OList xs) →
  after_run self now ctx result h =
    match (elapsed_of now (start_entry d) (popped (metadata ctx) d h)).2 with
    | Ok e =>
        (recorded self xs
           (make_record (default VNone (d !! "lineage_id")) ctx e result)
           (popped (metadata ctx) d h),
         Ok result)
    | Raise ex => (popped (metadata ctx) d h, Raise ex)
    end.
Proof.
  intros Hm Hr. rewrite (after_run_eq now ctx result h d xs Hm Hr).
  cbv zeta. unfold recorded. by rewrite popped_length.
Qed.

Lemma after_run_not_dict now ctx result (h : heap) :
  (∀ d, h !! metadata ctx ≠ Some (ODict d)) →
  after_run self now ctx result h = (h, Raise TypeError).
Proof.
  intros Hm. unfold after_run, bind, dict_pop.
  destruct (h !! metadata ctx) as [[d|xs]|] eqn:E; try done.
  by destruct (Hm d).
Qed.
End equations.

(** ** What a completed [after_run] leaves in the store *)

Section after_run_facts.
Variable self : DataLineageMiddleware.

Lemma make_record_lineage_id lid ctx e result :
  make_record lid ctx e result !! "lineage_id" = Some lid.
Proof. unfold make_record. by simplify_map_eq. Qed.

Lemma make_record_agent_name lid ctx e result :
  make_record lid ctx e result !! "agent_name" = Some (VStr (agent_name ctx)).
Proof. unfold make_record. by simplify_map_eq. Qed.

Lemma make_record_method lid ctx e result :
  make_record lid ctx e result !! "method" = Some (VStr (method ctx)).
Proof. unfold make_record. by simplify_map_eq. Qed.

Lemma make_record_elapsed_ms lid ctx e result :
  make_record lid ctx e result !! "elapsed_ms" = Some e.
Proof. unfold make_record. by simplify_map_eq. Qed.

Lemma make_record_has_result lid ctx e result :
  make_record lid ctx e result !! "has_result"
  = Some (VBool (negb (is_none result))).
Proof. unfold make_record. by simplify_map_eq. Qed.

Lemma make_record_no_start lid ctx e result :
  make_record lid ctx e result !! "lineage_start_ns" = None.
Proof. unfold make_record. by simplify_map_eq. Qed.

(** When the log is not a list, [after_run] cannot complete. *)
Lemma after_run_not_list now ctx result (h : heap) :
  (∀ xs, h !! _records self ≠ Some (OList xs)) →
  ∃ h' e, after_run self now ctx result h = (h', Raise e).
Proof.
  intros Hr.
  destruct (h !! metadata ctx) as [[d|ys]|] eqn:Hm;
    [| rewrite after_run_not_dict by congruence; eauto ..].
  pose proof (lookup_lt_Some _ _ _ Hm) as Hlt.
  unfold after_run, bind at 1, dict_pop. rewrite Hm.
  assert (∀ d' (start e : val),
    ∃ h2 ex,
      (lid <~ dict_get (metadata ctx) "lineage_id" ;
       record <~ alloc (ODict (make_record lid ctx e result)) ;
       list_append (_records self) (VRef record) ;; ret start)
        (<[metadata ctx := ODict d']> h) = (h2, Raise ex)) as Hrest.
  { intros d' start e. unfold bind, dict_get, alloc, list_append, ret.
    rewrite list_lookup_insert_eq by done.
    destruct (decide (_records self < length h)) as [Hlr|Hlr].
    - rewrite lookup_app_l by (by rewrite length_insert).
      destruct (decide (_records self = metadata ctx)) as [->|Hne].
      + rewrite list_lookup_insert_eq by done. eauto.
      + rewrite list_lookup_insert_ne by done.
        destruct (h !! _records self) as [[?|xs]|] eqn:E; eauto.
        by destruct (Hr xs).
    - destruct (decide (_records self = length h)) as [->|Hne].
      + rewrite lookup_app_r by (rewrite length_insert; lia).
        rewrite length_insert, Nat.sub_diag. simpl. eauto.
      + rewrite lookup_ge_None_2; [eauto|].
        rewrite length_app, length_insert. simpl. lia. }
  destruct (d !! "lineage_start_ns") as [s|] eqn:Es.
  - unfold bind at 1.
    pose proof (elapsed_of_heap now s
                  (<[metadata ctx := ODict (delete "lineage_start_ns" d)]> h)) as Hh.
    destruct (elapsed_of now s _) as [h1 [e|ex]] eqn:E; simpl in Hh; subst h1;
      [apply Hrest | eauto].
  - unfold bind at 1.
    pose proof (elapsed_of_heap now VNone h) as Hh.
    destruct (elapsed_of now VNone h) as [h1 [e|ex]] eqn:E; simpl in Hh; subst h1;
      [| eauto].
    rewrite <- (insert_lookup_same h _ _ Hm). apply Hrest.
Qed.

(** Inversion of a completed [after_run]. *)
Lemma after_run_ok_inv now ctx result (h h' : heap) v :
  after_run self now ctx result h = (h', Ok v) →
  ∃ d xs e,
    h !! metadata ctx = Some (ODict d) ∧
    h !! _records self = Some (OList xs) ∧
    (elapsed_of now (start_entry d) (popped (metadata ctx) d h)).2 = Ok e ∧
    v = result ∧
    h' = recorded self xs
           (make_record (default VNone (d !! "lineage_id")) ctx e result)
           (popped (metadata ctx) d h).
Proof.
  intros Hrun.
  destruct (h !! metadata ctx) as [[d|ys]|] eqn:Hm;
    [| rewrite after_run_not_dict in Hrun by congruence; done ..].
  destruct (h !! _records self) as [[?|xs]|] eqn:Hr;
    [destruct (after_run_not_list now ctx result h) as (?&?&E);
       [congruence | rewrite E in Hrun; done] | |
     destruct (after_run_not_list now ctx result h) as (?&?&E);
       [congruence | rewrite E in Hrun; done]].
  rewrite (after_run_recorded self now ctx result h d xs Hm Hr) in Hrun.
  destruct (elapsed_of now (start_entry d) (popped (metadata ctx) d h)).2
    as [e|ex] eqn:E; [|done].
  injection Hrun as <- <-. by exists d, xs, e.
Qed.
End after_run_facts.

Section recorded_facts.
Variable self : DataLineageMiddleware.

Lemma recorded_length xs rec (h1 : heap) :
  length (recorded self xs rec h1) = S (length h1).
Proof. unfold recorded. rewrite length_insert, length_app. simpl. lia. Qed.

Lemma recorded_log xs rec (h1 : heap) :
  _records self < length h1 →
  log self (recorded self xs rec h1) = xs ++ [VRef (length h1)].
Proof.
  intros Hlt. unfold log, elements_at, recorded.
  rewrite list_lookup_insert_eq; [done|]. rewrite length_app. lia.
Qed.

Lemma recorded_new xs rec (h1 : heap) :
  _records self < length h1 →
  recorded self xs rec h1 !! length h1 = Some (ODict rec).
Proof.
  intros Hlt. unfold recorded.
  rewrite list_lookup_insert_ne by lia.
  rewrite lookup_app_r by lia. by rewrite Nat.sub_diag.
Qed.

Lemma recorded_other xs rec (h1 : heap) l :
  l ≠ _records self → l < length h1 →
  recorded self xs rec h1 !! l = h1 !! l.
Proof.
  intros Hne Hlt. unfold recorded.
  rewrite list_lookup_insert_ne by done. by rewrite lookup_app_l.
Qed.

Lemma recorded_entry_new xs rec (h1 : heap) k :
  _records self < length h1 →
  entry (recorded self xs rec h1) (length h1) k = rec !! k.
Proof. intros. unfold entry. by rewrite recorded_new. Qed.
End recorded_facts.

(** ** Rounding *)

Lemma round_half_even_nonneg num den :
  (0 <= num)%Z → (0 < den)%Z → (0 <= round_half_even num den)%Z.
Proof.
  intros Hn Hd. unfold round_half_even.
  pose proof (Z.div_pos num den Hn Hd).
  destruct (2 * (num mod den) ?= den)%Z; [destruct (Z.even _)|..]; lia.
Qed.

Lemma round_magnitude_nonneg a b : (0 <= round_magnitude a b)%Q.
Proof.
  unfold round_magnitude.
  set (k := (Z.max (floor_log2 a b) (-1022) - 52)%Z).
  destruct (Z.leb_spec 0 k) as [Hk|Hk]; cbv zeta.
  - destruct (2 ^ 1024 <=? _)%Z.
    + unfold infinity. change 0%Q with (inject_Z 0). rewrite <- Zle_Qle.
      by apply Z.pow_nonneg.
    + change 0%Q with (inject_Z 0). rewrite <- Zle_Qle.
      apply Z.mul_nonneg_nonneg; [|by apply Z.pow_nonneg].
      apply round_half_even_nonneg; [lia|].
      apply Z.mul_pos_pos; [lia|]. by apply Z.pow_pos_nonneg.
  - rewrite Qred_correct. unfold Qle. cbn [Qnum Qden].
    assert (0 <= round_half_even (Z.pos a * 2 ^ (- k)) (Z.pos b))%Z
      by (apply round_half_even_nonneg; [|lia];
          apply Z.mul_nonneg_nonneg; [lia | apply Z.pow_nonneg; lia]).
    lia.
Qed.

(** Rounding keeps the sign. *)
Lemma round_binary64_nonneg a b : (0 <= a)%Z → (0 <= round_binary64 a b)%Q.
Proof.
  intros Ha. unfold round_binary64. destruct a as [|p|p]; [done| |lia].
  apply round_magnitude_nonneg.
Qed.

(** Values of the rounding: inexact quotients, a significand that does
    not fit ([2^53 + 1] and [2^53 + 3] are ties), a quotient below the
    least positive float, and the ends of the range. *)
Lemma round_binary64_values :
  round_binary64 5000000 1000000 = 5%Q ∧
  round_binary64 3499000 1000000 = (7879047548084683 # 2251799813685248)%Q ∧
  round_binary64 1 10 = (3602879701896397 # 36028797018963968)%Q ∧
  round_binary64 (-1) 3 = (- (6004799503160661 # 18014398509481984))%Q ∧
  round_binary64 (2 ^ 53 + 1) 1 = inject_Z (2 ^ 53) ∧
  round_binary64 (2 ^ 53 + 3) 1 = inject_Z (2 ^ 53 + 4) ∧
  round_binary64 3 (2 ^ 1075) = (1 # 2 ^ 1073)%Q ∧
  round_binary64 1 (2 ^ 1075) = 0%Q ∧
  round_binary64 (float_limit - 1) 1 = inject_Z (2 ^ 1024 - 2 ^ 971) ∧
  round_binary64 float_limit 1 = infinity.
Proof. vm_compute. split_and!; reflexivity. Qed.

(** ** The elapsed time *)

Lemma elapsed_of_none now (h : heap) : elapsed_of now VNone h = (h, Ok VNone).
Proof. done. Qed.

Lemma elapsed_of_zero now (h : heap) : elapsed_of now (VInt 0) h = (h, Ok VNone).
Proof. done. Qed.

Lemma elapsed_of_int now start (h : heap) :
  start ≠ 0%Z → elapsed_in_range now start →
  elapsed_of now (VInt start) h
  = (h, Ok (VFloat (round_binary64 (now - start) 1000000))).
Proof.
  intros Hnz Hr. unfold elapsed_of, lift. simpl.
  destruct (Z.eqb_spec start 0) as [|_]; [done|]. simpl.
  unfold elapsed_in_range in Hr.
  destruct (Z.ltb_spec (Z.abs (now - start)) (float_limit * 1000000)); [done|lia].
Qed.

(** A start entry that is an [int] never makes [after_run] raise a
    [TypeError]; within the float range it does not raise at all. *)
Lemma elapsed_of_int_ok now start (h : heap) :
  elapsed_in_range now start →
  ∃ e, elapsed_of now (VInt start) h = (h, Ok e).
Proof.
  intros Hr. destruct (decide (start = 0%Z)) as [->|Hnz].
  - rewrite elapsed_of_zero. eauto.
  - rewrite elapsed_of_int by done. eauto.
Qed.

Lemma elapsed_of_falsy now v (h : heap) :
  is_truthy h v = false → elapsed_of now v h = (h, Ok VNone).
Proof. intros Hv. unfold elapsed_of. by rewrite Hv. Qed.

(** With a true start entry the elapsed time is computed, or the
    computation raises, as [elapsed_error] says. *)
Lemma elapsed_of_error now start (h : heap) :
  is_truthy h start = true →
  match elapsed_error now start with
  | Some ex => (elapsed_of now start h).2 = Raise ex
  | None => ∃ e, (elapsed_of now start h).2 = Ok e
  end.
Proof.
  intros Ht. unfold elapsed_of, lift. rewrite Ht.
  assert ((Z.abs 1000000 <? float_limit)%Z = true) as Hmillion
    by (vm_compute; reflexivity).
  destruct start as [|c|z|q|s|l]; try done.
  - unfold py_int_sub, py_truediv, elapsed_error.
    destruct (Z.abs (now - Z.b2z c) <? float_limit * 1000000)%Z; cbn [snd]; eauto.
  - unfold py_int_sub, py_truediv, elapsed_error.
    destruct (Z.abs (now - z) <? float_limit * 1000000)%Z; cbn [snd]; eauto.
  - unfold py_int_sub, py_truediv, elapsed_error, int_to_float.
    destruct (Z.abs now <? float_limit)%Z; [|done].
    rewrite Hmillion. cbn [snd]. eauto.
Qed.

(** The outcome of [after_run] on a metadata mapping: it returns the
    result it was given unless the start entry is true and the elapsed time
    cannot be computed from it. *)
Lemma after_run_outcome self now ctx result (h : heap) d xs :
  h !! metadata ctx = Some (ODict d) →
  h !! _records self = Some (OList xs) →
  (after_run self now ctx result h).2
  = if is_truthy (popped (metadata ctx) d h) (start_entry d)
    then match elapsed_error now (start_entry d) with
         | Some ex => Raise ex
         | None => Ok result
         end
    else Ok result.
Proof.
  intros Hm Hr.
  rewrite (after_run_recorded self now ctx result h d xs Hm Hr).
  destruct (is_truthy (popped (metadata ctx) d h) (start_entry d)) eqn:Ht.
  - pose proof (elapsed_of_error now (start_entry d) _ Ht) as He.
    destruct (elapsed_error now (start_entry d)) as [ex|].
    + by rewrite He.
    + destruct He as [e ->]. done.
  - by rewrite elapsed_of_falsy.
Qed.

(** ** Properties of one [after_run] call *)

(** C1.  [after_run] returns exactly the [result] argument, for every
    context, store and result value ([None] and references included):
    whenever a call returns, it returns its [result]; whether it returns
    does not depend on [result], so that a call which returns for one
    result value returns every other value given in its place; and on a
    metadata mapping with the log a list it does return, unless the start
    entry is true and the elapsed time cannot be computed from it. *)
Theorem after_run_returns_result self now ctx result (h : heap) :
  (∀ h' v, after_run self now ctx result h = (h', Ok v) → v = result) ∧
  (∀ result0 h0 v0,
     after_run self now ctx result0 h = (h0, Ok v0) →
     (after_run self now ctx result h).2 = Ok result) ∧
  (∀ d xs,
     h !! metadata ctx = Some (ODict d) →
     h !! _records self = Some (OList xs) →
     is_truthy (popped (metadata ctx) d h) (start_entry d) = false
     ∨ elapsed_error now (start_entry d) = None →
     (after_run self now ctx result h).2 = Ok result).
Proof.
  split_and!.
  - intros h' v Hrun.
    by destruct (after_run_ok_inv _ _ _ _ _ _ _ Hrun) as (?&?&?&?&?&?&?&?).
  - intros result0 h0 v0 Hrun.
    destruct (after_run_ok_inv _ _ _ _ _ _ _ Hrun) as (d&xs&e&Hm&Hr&He&_&_).
    rewrite (after_run_recorded self now ctx result h d xs Hm Hr).
    by rewrite He.
  - intros d xs Hm Hr Hstart.
    rewrite (after_run_outcome self now ctx result h d xs Hm Hr).
    destruct Hstart as [-> | ->]; [done|]. by destruct (is_truthy _ _).
Qed.

(** C3.  On a context whose metadata holds neither key written by
    [before_run], [after_run] returns normally and appends a record whose
    [elapsed_ms] and [lineage_id] are both [None]. *)
Theorem after_run_without_before_run self now ctx result (h : heap) d xs :
  h !! metadata ctx = Some (ODict d) →
  h !! _records self = Some (OList xs) →
  d !! "lineage_start_ns" = None →
  d !! "lineage_id" = None →
  ∃ h', after_run self now ctx result h = (h', Ok result) ∧
        log self h' = xs ++ [VRef (length h)] ∧
        entry h' (length h) "elapsed_ms" = Some VNone ∧
        entry h' (length h) "lineage_id" = Some VNone.
Proof.
  intros Hm Hr Hs Hl. pose proof (lookup_lt_Some _ _ _ Hr) as Hlt.
  rewrite (after_run_recorded self now ctx result h d xs Hm Hr).
  unfold start_entry. rewrite Hs, Hl. simpl.
  eexists; split; [done|].
  rewrite <- (popped_length (metadata ctx) d h).
  assert (_records self < length (popped (metadata ctx) d h))
    by (by rewrite popped_length).
  rewrite recorded_log, !recorded_entry_new by done.
  by rewrite make_record_elapsed_ms, make_record_lineage_id.
Qed.


(** ** Looking objects up in the stores the hooks build *)

Lemma recorded_new_at self xs rec (h1 : heap) l :
  l = length h1 → _records self < length h1 →
  recorded self xs rec h1 !! l = Some (ODict rec).
Proof. intros ->. apply recorded_new. Qed.

Lemma recorded_log_at self xs rec (h1 : heap) l :
  l = _records self → _records self < length h1 →
  recorded self xs rec h1 !! l = Some (OList (xs ++ [VRef (length h1)])).
Proof.
  intros -> Hlt. unfold recorded.
  rewrite list_lookup_insert_eq; [done|]. rewrite length_app. lia.
Qed.

Lemma popped_lookup_at m d (h : heap) l :
  l = m → m < length h →
  popped m d h !! l = Some (ODict (delete "lineage_start_ns" d)).
Proof. intros ->. apply popped_lookup_self. Qed.

Ltac store_lia :=
  repeat rewrite ?recorded_length, ?popped_length, ?length_insert;
  simpl; first [lia | congruence].

Ltac store_lookup :=
  repeat first
    [ rewrite recorded_new_at by store_lia
    | rewrite recorded_log_at by store_lia
    | rewrite recorded_other by store_lia
    | rewrite popped_lookup_at by store_lia
    | rewrite popped_lookup_other by store_lia
    | rewrite list_lookup_insert_eq by store_lia
    | rewrite list_lookup_insert_ne by store_lia ].

Lemma stamped_start lineage_id now agent d :
  start_entry (stamped lineage_id now agent d) = VInt now.
Proof. unfold start_entry, stamped. by simplify_map_eq. Qed.

Lemma stamped_popped_id lineage_id now agent d :
  delete "lineage_start_ns" (stamped lineage_id now agent d) !! "lineage_id"
  = Some (VStr lineage_id).
Proof. unfold stamped. by simplify_map_eq. Qed.

Lemma stamped_popped_agent lineage_id now agent d :
  delete "lineage_start_ns" (stamped lineage_id now agent d) !! "lineage_agent"
  = Some (VStr agent).
Proof. unfold stamped. by simplify_map_eq. Qed.

Lemma start_entry_deleted d :
  start_entry (delete "lineage_start_ns" d) = VNone.
Proof. unfold start_entry. by rewrite lookup_delete_eq. Qed.

(** Inversion of a completed [before_run]. *)
Lemma before_run_ok_inv self lineage_id now ctx (h h' : heap) u :
  before_run self lineage_id now ctx h = (h', Ok u) →
  ∃ d, h !! metadata ctx = Some (ODict d) ∧
       h' = <[metadata ctx := ODict (stamped lineage_id now (agent_name ctx) d)]> h.
Proof.
  intros Hrun. destruct (h !! metadata ctx) as [[d|ys]|] eqn:Hm;
    [| rewrite before_run_not_dict in Hrun by congruence; done ..].
  rewrite (before_run_eq self lineage_id now ctx h d Hm) in Hrun.
  injection Hrun as <- _. eauto.
Qed.

(** C9.  After a [before_run] and a completed [after_run] on a context, a
    second [after_run] on it completes as well; the metadata still holds
    the [lineage_id] key, both appended records carry that identifier, and
    the second record has no elapsed time. *)
Theorem second_after_run_repeats_lineage_id self lineage_id now0 now1 now2 ctx
    r1 r2 (h h2 : heap) v :
  (before_run self lineage_id now0 ctx ;; after_run self now1 ctx r1) h
    = (h2, Ok v) →
  entry h2 (metadata ctx) "lineage_id" = Some (VStr lineage_id) ∧
  ∃ h3, after_run self now2 ctx r2 h2 = (h3, Ok r2) ∧
        log self h3 = log self h ++ [VRef (length h); VRef (S (length h))] ∧
        entry h3 (length h) "lineage_id" = Some (VStr lineage_id) ∧
        entry h3 (S (length h)) "lineage_id" = Some (VStr lineage_id) ∧
        entry h3 (S (length h)) "elapsed_ms" = Some VNone ∧
        entry h3 (metadata ctx) "lineage_id" = Some (VStr lineage_id).
Proof.
  unfold bind at 1. intros Hrun.
  destruct (before_run self lineage_id now0 ctx h) as [h1 [u|ex]] eqn:Hb; [|done].
  apply before_run_ok_inv in Hb as (d & Hm & ->).
  apply after_run_ok_inv in Hrun as (d1 & xs & e & Hm1 & Hr1 & He & -> & ->).
  pose proof (lookup_lt_Some _ _ _ Hm) as Hlm.
  pose proof (lookup_lt_Some _ _ _ Hr1) as Hlr. rewrite length_insert in Hlr.
  assert (_records self ≠ metadata ctx) as Hne.
  { intros E. rewrite E, list_lookup_insert_eq in Hr1 by done. done. }
  rewrite list_lookup_insert_eq in Hm1 by done. injection Hm1 as <-.
  rewrite list_lookup_insert_ne in Hr1 by done.
  set (d1 := stamped lineage_id now0 (agent_name ctx) d) in *.
  set (h1 := <[metadata ctx := ODict d1]> h) in *.
  assert (length h1 = length h) as Hl1 by (subst h1; by rewrite length_insert).
  set (rec1 := make_record _ ctx e r1).
  set (h2 := recorded self xs rec1 (popped (metadata ctx) d1 h1)).
  assert (h2 !! metadata ctx = Some (ODict (delete "lineage_start_ns" d1))) as Hm2.
  { subst h2. by store_lookup. }
  assert (h2 !! _records self = Some (OList (xs ++ [VRef (length h)]))) as Hr2.
  { subst h2. store_lookup. by rewrite popped_length, Hl1. }
  assert (length h2 = S (length h)) as Hl2 by (subst h2; store_lia).
  split.
  { unfold entry. rewrite Hm2. apply stamped_popped_id. }
  rewrite (after_run_recorded self now2 ctx r2 h2 _ _ Hm2 Hr2).
  rewrite start_entry_deleted, elapsed_of_none. simpl.
  eexists; split; [done|].
  unfold log, elements_at, entry. rewrite Hr1.
  assert (length h ≠ metadata ctx ∧ length h ≠ _records self) as [??] by lia.
  store_lookup. rewrite popped_length, Hl2.
  rewrite <- (assoc_L (++)). simpl.
  assert (h2 !! length h = Some (ODict rec1)) as ->.
  { subst h2. by store_lookup. }
  subst rec1 d1. rewrite !make_record_lineage_id, make_record_elapsed_ms.
  unfold stamped. by simplify_map_eq.
Qed.

Lemma elapsed_of_int_any_heap now z (h h' : heap) :
  (elapsed_of now (VInt z) h).2 = (elapsed_of now (VInt z) h').2.
Proof. unfold elapsed_of. simpl. by destruct (negb _). Qed.

(** C10.  The record's [agent_name] is the context's [agent_name] at the
    time of [after_run], while the metadata keeps under [lineage_agent]
    the name [before_run] saw; and [after_run] does not read that key:
    whatever the metadata holds under it between the two calls, the same
    record is appended. *)
Theorem agent_name_read_from_context self lineage_id now0 now1 ctx ctx' result
    (h h2 : heap) v :
  metadata ctx' = metadata ctx →
  (before_run self lineage_id now0 ctx ;; after_run self now1 ctx' result) h
    = (h2, Ok v) →
  log self h2 = log self h ++ [VRef (length h)] ∧
  entry h2 (length h) "agent_name" = Some (VStr (agent_name ctx')) ∧
  entry h2 (metadata ctx) "lineage_agent" = Some (VStr (agent_name ctx)) ∧
  ∀ d1 d1',
    (before_run self lineage_id now0 ctx h).1 !! metadata ctx = Some (ODict d1) →
    (∀ k, k ≠ "lineage_agent" → d1' !! k = d1 !! k) →
    ∃ h2',
      after_run self now1 ctx' result
        (<[metadata ctx := ODict d1']> (before_run self lineage_id now0 ctx h).1)
      = (h2', Ok result) ∧
      h2' !! length h = h2 !! length h.
Proof.
  unfold bind at 1. intros Hctx Hrun.
  destruct (before_run self lineage_id now0 ctx h) as [h1 [u|ex]] eqn:Hb; [|done].
  apply before_run_ok_inv in Hb as (d & Hm & ->).
  apply after_run_ok_inv in Hrun as (d1 & xs & e & Hm1 & Hr1 & He & -> & ->).
  rewrite Hctx in *.
  pose proof (lookup_lt_Some _ _ _ Hm) as Hlm.
  pose proof (lookup_lt_Some _ _ _ Hr1) as Hlr. rewrite length_insert in Hlr.
  assert (_records self ≠ metadata ctx) as Hne.
  { intros E. rewrite E, list_lookup_insert_eq in Hr1 by done. done. }
  rewrite list_lookup_insert_eq in Hm1 by done. injection Hm1 as <-.
  rewrite list_lookup_insert_ne in Hr1 by done.
  set (d1 := stamped lineage_id now0 (agent_name ctx) d) in *.
  set (h1 := <[metadata ctx := ODict d1]> h) in *.
  assert (length h1 = length h) as Hl1 by (subst h1; by rewrite length_insert).
  assert (length h ≠ metadata ctx ∧ length h ≠ _records self) as [??] by lia.
  unfold log, elements_at, entry. rewrite Hr1. simpl.
  split_and!.
  - store_lookup. by rewrite popped_length, Hl1.
  - store_lookup. by rewrite make_record_agent_name.
  - store_lookup. apply stamped_popped_agent.
  - intros d1x d1' Hd1 Hagree.
    subst h1. rewrite list_lookup_insert_eq in Hd1 by done. injection Hd1 as <-.
    rewrite list_insert_insert_eq.
    assert (<[metadata ctx := ODict d1']> h !! metadata ctx' = Some (ODict d1')) as Hm'
      by (rewrite Hctx; by apply list_lookup_insert_eq).
    assert (<[metadata ctx := ODict d1']> h !! _records self = Some (OList xs)) as Hr'
      by (by rewrite list_lookup_insert_ne).
    rewrite (after_run_recorded self now1 ctx' result _ _ _ Hm' Hr'). rewrite Hctx.
    assert (start_entry d1' = VInt now0) as Hs'.
    { unfold start_entry. rewrite Hagree by done. apply stamped_start. }
    unfold d1 in He. rewrite stamped_start in He. rewrite Hs'. fold d1 in He.
    rewrite (elapsed_of_int_any_heap now1 now0 _
               (popped (metadata ctx) d1 (<[metadata ctx := ODict d1]> h))), He.
    eexists; split; [done|].
    store_lookup. by rewrite (Hagree "lineage_id").
Qed.

(** ** Runs *)

(** Every call is one of the four steps. *)
Lemma run_call_step self c (h h1 : heap) o xs :
  h !! _records self = Some (OList xs) →
  run_call self c h = (h1, o) →
  call_step self xs h c h1 o.
Proof.
  intros Hr Hrun. destruct c as [tok now ctx|now ctx result]; simpl in Hrun.
  - unfold bind in Hrun.
    destruct (h !! metadata ctx) as [[d|ys]|] eqn:Hm.
    + rewrite (before_run_eq self tok now ctx h d Hm) in Hrun.
      injection Hrun as <- <-. by constructor.
    + rewrite before_run_not_dict in Hrun by congruence.
      injection Hrun as <- <-.
      apply (step_no_mapping self xs h (BeforeRun tok now ctx)). simpl. congruence.
    + rewrite before_run_not_dict in Hrun by congruence.
      injection Hrun as <- <-.
      apply (step_no_mapping self xs h (BeforeRun tok now ctx)). simpl. congruence.
  - destruct (h !! metadata ctx) as [[d|ys]|] eqn:Hm.
    + rewrite (after_run_recorded self now ctx result h d xs Hm Hr) in Hrun.
      destruct (elapsed_of now (start_entry d) (popped (metadata ctx) d h)).2
        as [e|ex] eqn:He; injection Hrun as <- <-.
      * by apply step_after.
      * by apply step_after_raise.
    + rewrite after_run_not_dict in Hrun by congruence.
      injection Hrun as <- <-.
      apply (step_no_mapping self xs h (AfterRun now ctx result)). simpl. congruence.
    + rewrite after_run_not_dict in Hrun by congruence.
      injection Hrun as <- <-.
      apply (step_no_mapping self xs h (AfterRun now ctx result)). simpl. congruence.
Qed.

Lemma summarised_frame (h h1 : heap) r rec :
  h1 !! r = h !! r → summarised h (VRef r) rec → summarised h1 (VRef r) rec.
Proof. unfold summarised, field, entry. by intros ->. Qed.

Lemma lineage_id_at_frame (h h1 : heap) l :
  h1 !! l = h !! l → lineage_id_at h1 l = lineage_id_at h l.
Proof. unfold lineage_id_at, entry. by intros ->. Qed.

Section runs.
Variable self : DataLineageMiddleware.

(** The metadata mappings of the run and the log list are allocated below
    [n0]; the records are allocated from [n0] on. *)
Variable n0 : nat.

Lemma Forall2_summarised_frame (h h1 : heap) xs olds :
  (∀ r, n0 ≤ r < length h → h1 !! r = h !! r) →
  Forall (λ v, ∃ r, v = VRef r ∧ n0 ≤ r < length h) xs →
  Forall2 (summarised h) xs olds →
  Forall2 (summarised h1) xs olds.
Proof.
  intros Hfr Hxs H2. induction H2 as [|v rec xs olds Hs _ IH]; [constructor|].
  apply Forall_cons in Hxs as [(r & -> & Hrange) Hxs].
  constructor; [|by apply IH].
  apply (summarised_frame h); [by apply Hfr | done].
Qed.

Lemma range_weaken (h h1 : heap) (xs : list val) :
  length h ≤ length h1 →
  Forall (λ v, ∃ r, v = VRef r ∧ n0 ≤ r < length h) xs →
  Forall (λ v, ∃ r, v = VRef r ∧ n0 ≤ r < length h1) xs.
Proof.
  intros Hle Hxs. eapply Forall_impl; [done|].
  intros v (r & -> & ?). exists r. split; [done|lia].
Qed.

(** The log after a run, against the expected records. *)
Lemma run_calls_log cs : ∀ (h h' : heap) os xs olds cur,
  h !! _records self = Some (OList xs) →
  _records self < n0 → n0 ≤ length h →
  (∀ c, c ∈ cs → metadata_of c < n0) →
  Forall (λ v, ∃ r, v = VRef r ∧ n0 ≤ r < length h) xs →
  Forall2 (summarised h) xs olds →
  (∀ l, l < n0 → cur l = lineage_id_at h l) →
  run_calls self cs h = (h', os) →
  ∃ news, h' !! _records self = Some (OList (xs ++ news)) ∧
          Forall2 (summarised h') (xs ++ news) (olds ++ records_of_run cur cs os) ∧
          length news = completed cs os.
Proof.
  induction cs as [|c cs IH]; intros h h' os xs olds cur Hr Hrn Hn Hmeta Hxs Holds Hcur Hrun.
  { simpl in Hrun. injection Hrun as <- <-. exists []. simpl.
    by rewrite !app_nil_r. }
  simpl in Hrun.
  destruct (run_call self c h) as [h1 o] eqn:Hc.
  destruct (run_calls self cs h1) as [h2 os'] eqn:Hcs.
  injection Hrun as <- <-.
  assert (metadata_of c < n0) as Hmc by (apply Hmeta; left).
  assert (∀ c', c' ∈ cs → metadata_of c' < n0) as Hmeta'
    by (intros; apply Hmeta; by right).
  apply (run_call_step self c h h1 o xs Hr) in Hc.
  destruct Hc as [c Hno|tok now ctx d Hm|now ctx result d ex Hm He|now ctx result d e Hm He].
  - (* no mapping *)
    destruct (IH h h2 os' xs olds cur) as (news & ? & ? & ?); try done.
    exists news. by destruct c.
  - (* before_run *)
    simpl in Hmc.
    assert (_records self ≠ metadata ctx) as Hne by (intros E; congruence).
    set (h1 := <[metadata ctx := _]> h) in *.
    assert (length h1 = length h) as Hl1 by (subst h1; by rewrite length_insert).
    assert (∀ l, l ≠ metadata ctx → h1 !! l = h !! l) as Hfr
      by (intros; subst h1; by rewrite list_lookup_insert_ne).
    destruct (IH h1 h2 os' xs olds (<[metadata ctx := VStr tok]> cur))
      as (news & ? & ? & ?); try done.
    + by rewrite Hfr.
    + lia.
    + by rewrite Hl1.
    + apply (Forall2_summarised_frame h); [|done..]. intros; apply Hfr; lia.
    + intros l Hl. destruct (decide (l = metadata ctx)) as [->|Hlm].
      * rewrite fn_lookup_insert. unfold lineage_id_at, entry. subst h1.
        rewrite list_lookup_insert_eq by (by eapply lookup_lt_Some).
        unfold stamped. by simplify_map_eq.
      * rewrite fn_lookup_insert_ne by done. rewrite Hcur by done.
        symmetry. apply lineage_id_at_frame. by apply Hfr.
    + by exists news.
  - (* after_run raises *)
    simpl in Hmc.
    assert (_records self ≠ metadata ctx) as Hne by (intros E; congruence).
    pose proof (lookup_lt_Some _ _ _ Hm) as Hlm.
    destruct (IH (popped (metadata ctx) d h) h2 os' xs olds cur)
      as (news & ? & ? & ?); try done.
    + by rewrite popped_lookup_other.
    + by rewrite popped_length.
    + by rewrite popped_length.
    + apply (Forall2_summarised_frame h); [|done..].
      intros; apply popped_lookup_other; lia.
    + intros l Hl. rewrite Hcur by done.
      destruct (decide (l = metadata ctx)) as [->|Hlm'].
      * unfold lineage_id_at, entry. rewrite popped_lookup_self, Hm by done.
        by rewrite lookup_delete_ne.
      * symmetry. apply lineage_id_at_frame. by apply popped_lookup_other.
    + by exists news.
  - (* after_run returns *)
    simpl in Hmc.
    assert (_records self ≠ metadata ctx) as Hne by (intros E; congruence).
    pose proof (lookup_lt_Some _ _ _ Hm) as Hlm.
    pose proof (lookup_lt_Some _ _ _ Hr) as Hlr.
    set (rec := make_record (default VNone (d !! "lineage_id")) ctx e result) in *.
    set (h1 := recorded self xs rec (popped (metadata ctx) d h)) in *.
    assert (length h1 = S (length h)) as Hl1 by (subst h1; store_lia).
    assert (∀ l, l ≠ metadata ctx → l ≠ _records self → l < length h →
                 h1 !! l = h !! l) as Hfr
      by (intros; subst h1; by store_lookup).
    assert (h1 !! length h = Some (ODict rec)) as Hnew
      by (subst h1; by store_lookup).
    set (s := {| rec_lineage_id := cur (metadata ctx);
                 rec_agent_name := agent_name ctx;
                 rec_method := method ctx;
                 rec_has_result := negb (is_none result) |}).
    destruct (IH h1 h2 os' (xs ++ [VRef (length h)]) (olds ++ [s]) cur)
      as (news & Hlog & Hall & Hlen); try done.
    + subst h1. store_lookup. by rewrite popped_length.
    + lia.
    + apply Forall_app. split.
      * apply (range_weaken h); [lia|done].
      * apply Forall_singleton. exists (length h). split; [done|lia].
    + apply Forall2_app.
      * apply (Forall2_summarised_frame h); [|done..].
        intros; apply Hfr; lia.
      * constructor; [|constructor].
        unfold summarised, field, entry. rewrite Hnew. subst rec s. simpl.
        rewrite make_record_lineage_id, make_record_agent_name,
          make_record_method, make_record_has_result.
        rewrite Hcur by done. unfold lineage_id_at, entry. by rewrite Hm.
    + intros l Hl. rewrite Hcur by done.
      destruct (decide (l = _records self)) as [->|Hlr'].
      { unfold lineage_id_at, entry. subst h1. store_lookup. by rewrite Hr. }
      destruct (decide (l = metadata ctx)) as [->|Hlm'].
      * unfold lineage_id_at, entry. subst h1. store_lookup. rewrite Hm.
        by rewrite lookup_delete_ne.
      * symmetry. apply lineage_id_at_frame. apply Hfr; [done..|lia].
    + exists (VRef (length h) :: news). simpl.
      rewrite <- (assoc_L (++)) in Hlog. rewrite <- !(assoc_L (++)) in Hall.
      simpl in Hall, Hlog.
      split_and!; [exact Hlog | exact Hall | by rewrite Hlen].
Qed.
End runs.

(** [before_run] leaves the log as it is, whatever the context. *)
Lemma before_run_log self lineage_id now ctx (h : heap) :
  log self (before_run self lineage_id now ctx h).1 = log self h.
Proof.
  destruct (h !! metadata ctx) as [[d|ys]|] eqn:Hm;
    [| rewrite before_run_not_dict by congruence; done ..].
  rewrite (before_run_eq self lineage_id now ctx h d Hm). simpl.
  unfold log, elements_at.
  destruct (decide (_records self = metadata ctx)) as [->|Hne].
  - rewrite list_lookup_insert_eq by (by eapply lookup_lt_Some). by rewrite Hm.
  - by rewrite list_lookup_insert_ne.
Qed.

(** C5.  Starting from an empty log, after any run the log holds exactly
    one record per [after_run] call that returned, in the order of these
    calls, each with the agent name, method and result flag of its call;
    [before_run] calls add nothing; and [records] returns a list with
    exactly these elements. *)
Theorem log_holds_completed_after_runs self cs (h h' : heap) os :
  h !! _records self = Some (OList []) →
  (∀ c, c ∈ cs → metadata_of c < length h) →
  run_calls self cs h = (h', os) →
  length (log self h') = completed cs os ∧
  Forall2 (summarised h') (log self h')
    (records_of_run (lineage_id_at h) cs os) ∧
  records self h' = (h' ++ [OList (log self h')], Ok (length h')) ∧
  ∀ lineage_id now ctx (h0 : heap),
    log self (before_run self lineage_id now ctx h0).1 = log self h0.
Proof.
  intros Hr Hmeta Hrun. pose proof (lookup_lt_Some _ _ _ Hr) as Hlr.
  destruct (run_calls_log self (length h) cs h h' os [] [] (lineage_id_at h))
    as (news & Hlog & Hall & Hlen); try done.
  simpl in Hlog, Hall.
  unfold log, elements_at, records, list_copy, alloc. rewrite Hlog.
  split_and!; [done..|]. intros. apply before_run_log.
Qed.

(** ** Snapshots *)

(** The truth value of a start entry does not depend on an object it does
    not refer to. *)
Lemma elapsed_of_mutate now start (h : heap) s o :
  start ≠ VRef s →
  (elapsed_of now start (<[s := o]> h)).2 = (elapsed_of now start h).2.
Proof.
  intros Hs. unfold elapsed_of.
  assert (is_truthy (<[s := o]> h) start = is_truthy h start) as ->; [|by destruct (is_truthy h start)].
  destruct start as [| | | | |l]; try done. simpl.
  rewrite list_lookup_insert_ne; [done|]. intros ->. done.
Qed.

Lemma start_entry_not_ref (h : heap) l d s :
  ¬ start_refers h s → h !! l = Some (ODict d) → start_entry d ≠ VRef s.
Proof.
  intros Hno Hl Hs. apply Hno. exists l, d. split; [done|].
  unfold start_entry in Hs. by destruct (d !! "lineage_start_ns") as [?|]; simplify_eq/=.
Qed.

Lemma start_refers_insert (h : heap) m D s :
  m < length h →
  start_refers (<[m := ODict D]> h) s →
  D !! "lineage_start_ns" = Some (VRef s) ∨ start_refers h s.
Proof.
  intros Hlm (l & d & Hl & Hd). destruct (decide (l = m)) as [->|Hne].
  - rewrite list_lookup_insert_eq in Hl by done. left. congruence.
  - rewrite list_lookup_insert_ne in Hl by done. right. by exists l, d.
Qed.

Lemma start_refers_recorded self xs rec (h1 : heap) s :
  _records self < length h1 →
  start_refers (recorded self xs rec h1) s →
  rec !! "lineage_start_ns" = Some (VRef s) ∨ start_refers h1 s.
Proof.
  intros Hlr (l & d & Hl & Hd).
  destruct (decide (l = _records self)) as [->|Hne].
  { by rewrite recorded_log_at in Hl. }
  destruct (decide (l < length h1)) as [Hlt|Hge].
  - rewrite recorded_other in Hl by done. right. by exists l, d.
  - pose proof (lookup_lt_Some _ _ _ Hl) as Hl'. rewrite recorded_length in Hl'.
    assert (l = length h1) as -> by lia.
    rewrite recorded_new in Hl by done. left. congruence.
Qed.

Lemma recorded_mutate self xs rec (h1 : heap) s o :
  s < length h1 → s ≠ _records self →
  recorded self xs rec (<[s := o]> h1) = <[s := o]> (recorded self xs rec h1).
Proof.
  intros Hs Hne. unfold recorded. rewrite length_insert.
  rewrite (list_insert_insert_ne (h1 ++ _) s (_records self)) by done.
  by rewrite (insert_app_l h1 _ s) by done.
Qed.

Lemma popped_mutate m d (h : heap) s o :
  m ≠ s → popped m d (<[s := o]> h) = <[s := o]> (popped m d h).
Proof. intros. unfold popped. by rewrite list_insert_insert_ne. Qed.

(** One call against a list [s] that is not the log: the call does not
    touch [s], and what it does is the same whatever [s] holds. *)
Lemma call_step_snapshot self xs (h h1 : heap) c o s zs :
  call_step self xs h c h1 o →
  h !! _records self = Some (OList xs) →
  h !! s = Some (OList zs) →
  s ≠ _records self →
  h1 !! s = Some (OList zs) ∧
  (∃ xs', h1 !! _records self = Some (OList xs')) ∧
  (¬ start_refers h s →
   ¬ start_refers h1 s ∧
   ∀ ys, run_call self c (<[s := OList ys]> h) = (<[s := OList ys]> h1, o)).
Proof.
  intros Hstep Hr Hs Hne.
  pose proof (lookup_lt_Some _ _ _ Hr) as Hlr.
  pose proof (lookup_lt_Some _ _ _ Hs) as Hls.
  destruct Hstep as [c Hno|tok now ctx d Hm|now ctx result d ex Hm He|now ctx result d e Hm He].
  - split_and!; [done|eauto|]. intros Hrefs. split; [done|]. intros ys.
    assert (∀ d, <[s := OList ys]> h !! metadata_of c ≠ Some (ODict d)) as Hno'.
    { intros d. destruct (decide (metadata_of c = s)) as [->|Hms].
      - by rewrite list_lookup_insert_eq.
      - by rewrite list_lookup_insert_ne. }
    destruct c as [tok now ctx|now ctx result]; simpl in *.
    + unfold bind. by rewrite before_run_not_dict.
    + by rewrite after_run_not_dict.
  - assert (metadata ctx ≠ s ∧ metadata ctx ≠ _records self) as [Hms Hmr]
      by (split; intros E; congruence).
    pose proof (lookup_lt_Some _ _ _ Hm) as Hlm.
    rewrite !list_lookup_insert_ne by done.
    split_and!; [done|eauto|]. intros Hrefs. split.
    + intros [Hd|?]%start_refers_insert; [|done..].
      unfold stamped in Hd. by simplify_map_eq.
    + intros ys. simpl. unfold bind.
      rewrite (before_run_eq self tok now ctx _ d)
        by (by rewrite list_lookup_insert_ne).
      by rewrite list_insert_insert_ne.
  - assert (metadata ctx ≠ s ∧ metadata ctx ≠ _records self) as [Hms Hmr]
      by (split; intros E; congruence).
    pose proof (lookup_lt_Some _ _ _ Hm) as Hlm.
    rewrite !popped_lookup_other by done.
    split_and!; [done|eauto|]. intros Hrefs. split.
    + unfold popped. intros [Hd|?]%start_refers_insert; [|done..].
      by rewrite lookup_delete_eq in Hd.
    + intros ys. simpl.
      rewrite (after_run_recorded self now ctx result _ d xs)
        by (by rewrite list_lookup_insert_ne).
      rewrite !popped_mutate by done.
      rewrite elapsed_of_mutate by (by eapply start_entry_not_ref).
      by rewrite He.
  - assert (metadata ctx ≠ s ∧ metadata ctx ≠ _records self) as [Hms Hmr]
      by (split; intros E; congruence).
    pose proof (lookup_lt_Some _ _ _ Hm) as Hlm.
    split_and!.
    + store_lookup. done.
    + rewrite recorded_log_at by store_lia. eauto.
    + intros Hrefs. split.
      * intros [Hd|Hd]%start_refers_recorded; [| |store_lia].
        { by rewrite make_record_no_start in Hd. }
        unfold popped in Hd. apply start_refers_insert in Hd as [Hd|?]; [|done..].
        by rewrite lookup_delete_eq in Hd.
      * intros ys. simpl.
        rewrite (after_run_recorded self now ctx result _ d xs)
          by (by rewrite list_lookup_insert_ne).
        rewrite !popped_mutate by done.
        rewrite elapsed_of_mutate by (by eapply start_entry_not_ref).
        rewrite He. by rewrite recorded_mutate by store_lia.
Qed.

Lemma run_calls_snapshot self s zs cs : ∀ (h h2 : heap) os xs,
  h !! _records self = Some (OList xs) →
  h !! s = Some (OList zs) →
  s ≠ _records self →
  run_calls self cs h = (h2, os) →
  h2 !! s = Some (OList zs) ∧
  (¬ start_refers h s →
   ∀ ys, run_calls self cs (<[s := OList ys]> h) = (<[s := OList ys]> h2, os)).
Proof.
  induction cs as [|c cs IH]; intros h h2 os xs Hr Hs Hne Hrun; simpl in Hrun.
  { injection Hrun as <- <-. done. }
  destruct (run_call self c h) as [h1 o] eqn:Hc.
  destruct (run_calls self cs h1) as [h2' os'] eqn:Hcs.
  injection Hrun as <- <-.
  apply (run_call_step self c h h1 o xs Hr) in Hc.
  destruct (call_step_snapshot self xs h h1 c o s zs Hc Hr Hs Hne)
    as (Hs1 & [xs' Hr1] & Hmut).
  destruct (IH h1 h2' os' xs' Hr1 Hs1 Hne Hcs) as [Hs2 Hmut'].
  split; [done|]. intros Hrefs ys. destruct (Hmut Hrefs) as [Hrefs1 Hcall].
  simpl. by rewrite Hcall, (Hmut' Hrefs1 ys).
Qed.

(** C7.  [records] returns a new list with the elements of the log.  The
    calls made afterwards leave that list as it was returned, so later
    appends never show in it; and whatever the caller stores in that list,
    the same calls have the same outcomes and leave the same store apart
    from that list: the log and the records appended to it are not
    affected. *)
Theorem records_snapshot_independent self (h : heap) xs :
  h !! _records self = Some (OList xs) →
  records self h = (h ++ [OList xs], Ok (length h)) ∧
  ∀ cs (h2 : heap) os,
    run_calls self cs (h ++ [OList xs]) = (h2, os) →
    h2 !! length h = Some (OList xs) ∧
    (¬ start_refers h (length h) →
     ∀ ys, run_calls self cs (<[length h := OList ys]> (h ++ [OList xs]))
           = (<[length h := OList ys]> h2, os)).
Proof.
  intros Hr. pose proof (lookup_lt_Some _ _ _ Hr) as Hlr.
  split. { unfold records, list_copy, alloc. by rewrite Hr. }
  intros cs h2 os Hrun.
  assert ((h ++ [OList xs]) !! length h = Some (OList xs)) as Hs
    by (by rewrite lookup_app_r, Nat.sub_diag by lia).
  assert ((h ++ [OList xs]) !! _records self = Some (OList xs)) as Hr'
    by (by rewrite lookup_app_l).
  destruct (run_calls_snapshot self (length h) xs cs _ h2 os xs Hr' Hs) as [H1 H2];
    [lia|done|].
  split; [done|]. intros Hrefs. apply H2.
  intros (l & d & Hl & Hd). apply Hrefs. exists l, d. split; [|done].
  destruct (decide (l < length h)) as [Hlt|Hge].
  - by rewrite lookup_app_l in Hl.
  - pose proof (lookup_lt_Some _ _ _ Hl) as Hl'. rewrite length_app in Hl'.
    simpl in Hl'. assert (l = length h) as -> by lia. congruence.
Qed.

(** ** Uniqueness of lineage identifiers *)


(** Calls keep dictionaries dictionaries and the log a list. *)
Lemma call_step_dicts self xs (h h1 : heap) c o :
  call_step self xs h c h1 o →
  h !! _records self = Some (OList xs) →
  (∃ xs', h1 !! _records self = Some (OList xs')) ∧
  ∀ l d, h !! l = Some (ODict d) → ∃ d', h1 !! l = Some (ODict d').
Proof.
  intros Hstep Hr. pose proof (lookup_lt_Some _ _ _ Hr) as Hlr.
  destruct Hstep as [c Hno|tok now ctx d Hm|now ctx result d ex Hm He|now ctx result d e Hm He];
    [by eauto|..];
    assert (metadata ctx ≠ _records self) as Hne by (intros E; congruence);
    pose proof (lookup_lt_Some _ _ _ Hm) as Hlm.
  - split; [rewrite list_lookup_insert_ne by done; eauto|].
    intros l d0 Hl. destruct (decide (l = metadata ctx)) as [->|Hlm'].
    + rewrite list_lookup_insert_eq by done. eauto.
    + rewrite list_lookup_insert_ne by done. eauto.
  - split; [rewrite popped_lookup_other by done; eauto|].
    intros l d0 Hl. destruct (decide (l = metadata ctx)) as [->|Hlm'].
    + rewrite popped_lookup_self by done. eauto.
    + rewrite popped_lookup_other by done. eauto.
  - split; [rewrite recorded_log_at by store_lia; eauto|].
    intros l d0 Hl. pose proof (lookup_lt_Some _ _ _ Hl) as Hll.
    assert (l ≠ _records self) by (intros E; congruence).
    rewrite recorded_other by store_lia.
    destruct (decide (l = metadata ctx)) as [->|Hlm'].
    + rewrite popped_lookup_self by done. eauto.
    + rewrite popped_lookup_other by done. eauto.
Qed.



(** A run of matched calls is within the protocol. *)
Lemma paired_in_protocol cs : ∀ pending seen,
  paired pending cs = true → in_protocol pending seen cs = true.
Proof.
  induction cs as [|c cs IH]; intros pending seen Hp; [done|].
  destruct c as [tok now ctx|now ctx result]; simpl in *;
    apply andb_prop in Hp as [H1 Hp].
  - by apply IH.
  - rewrite H1. simpl. by apply IH.
Qed.





(** ** When the hooks raise *)

(** [after_run] returns whenever the elapsed time can be computed. *)
Lemma after_run_completes self now ctx result (h : heap) d xs e :
  h !! metadata ctx = Some (ODict d) →
  h !! _records self = Some (OList xs) →
  elapsed_of now (start_entry d) (popped (metadata ctx) d h)
  = (popped (metadata ctx) d h, Ok e) →
  (after_run self now ctx result h).2 = Ok result.
Proof.
  intros Hm Hr He.
  rewrite (after_run_recorded self now ctx result h d xs Hm Hr). by rewrite He.
Qed.

(** C8, as the code has it.  On a context whose metadata is a mapping,
    [before_run] returns.  [after_run] returns the result it was given
    when the mapping has no start entry or a false one, and when the start
    entry is a number with the elapsed time in the float range, as after a
    [before_run]; it raises [TypeError] when the start entry is true and
    not a number, and [OverflowError] when it is a number with the elapsed
    time beyond the float range ([elapsed_error] tells the cases apart). *)
Theorem hooks_raise_only_on_unusable_start self lineage_id now0 now ctx result
    (h : heap) d xs :
  h !! metadata ctx = Some (ODict d) →
  h !! _records self = Some (OList xs) →
  (before_run self lineage_id now0 ctx h).2 = Ok tt ∧
  (after_run self now ctx result h).2
  = (if is_truthy (popped (metadata ctx) d h) (start_entry d)
     then match elapsed_error now (start_entry d) with
          | Some ex => Raise ex
          | None => Ok result
          end
     else Ok result) ∧
  (d !! "lineage_start_ns" = None →
   (after_run self now ctx result h).2 = Ok result) ∧
  (after_run self now ctx result (before_run self lineage_id now0 ctx h).1).2
  = (if (now0 =? 0)%Z || (Z.abs (now - now0) <? float_limit * 1000000)%Z
     then Ok result else Raise OverflowError).
Proof.
  intros Hm Hr. pose proof (lookup_lt_Some _ _ _ Hm) as Hlm.
  assert (_records self ≠ metadata ctx) as Hne by (intros E; congruence).
  split_and!.
  - by rewrite (before_run_eq self lineage_id now0 ctx h d Hm).
  - by apply (after_run_outcome self now ctx result h d xs).
  - intros Hs. rewrite (after_run_outcome self now ctx result h d xs Hm Hr).
    unfold start_entry. by rewrite Hs.
  - rewrite (before_run_eq self lineage_id now0 ctx h d Hm). cbn [fst].
    set (d1 := stamped lineage_id now0 (agent_name ctx) d).
    set (h1 := <[metadata ctx := ODict d1]> h).
    rewrite (after_run_outcome self now ctx result h1 d1 xs).
    + subst d1. rewrite stamped_start. cbn [is_truthy elapsed_error].
      destruct (now0 =? 0)%Z; cbn [negb orb]; [done|].
      by destruct (Z.abs (now - now0) <? float_limit * 1000000)%Z.
    + subst h1. by rewrite list_lookup_insert_eq.
    + subst h1. by rewrite list_lookup_insert_ne.
Qed.

(** C8, as stated, fails: with a non-empty string under the start key the
    subtraction raises [TypeError]. *)
Lemma after_run_raises_on_string_start :
  (after_run {| _records := 0 |} 2000
     {| agent_name := "test-agent"; method := "run"; metadata := 1 |}
     (VStr "x")
     [OList []; ODict {[ "lineage_start_ns" := VStr "yesterday" ]}]).2
  = Raise TypeError.
Proof. vm_compute. reflexivity. Qed.

(** ** The elapsed time a record carries *)

(** With a non-zero integer under the start key and the difference in the
    float range, the start key is removed and the record carries
    [(now - start) / 10^6], rounded to binary64. *)
Lemma after_run_elapsed_int self now ctx result (h : heap) d xs start :
  h !! metadata ctx = Some (ODict d) →
  h !! _records self = Some (OList xs) →
  d !! "lineage_start_ns" = Some (VInt start) →
  start ≠ 0%Z →
  elapsed_in_range now start →
  ∃ h', after_run self now ctx result h = (h', Ok result) ∧
        entry h' (metadata ctx) "lineage_start_ns" = None ∧
        log self h' = xs ++ [VRef (length h)] ∧
        entry h' (length h) "elapsed_ms"
        = Some (VFloat (round_binary64 (now - start) 1000000)).
Proof.
  intros Hm Hr Hs Hnz Hrange.
  pose proof (lookup_lt_Some _ _ _ Hm) as Hlm.
  pose proof (lookup_lt_Some _ _ _ Hr) as Hlr.
  assert (_records self ≠ metadata ctx) as Hne by (intros E; congruence).
  rewrite (after_run_recorded self now ctx result h d xs Hm Hr).
  unfold start_entry. rewrite Hs. simpl. rewrite elapsed_of_int by done. simpl.
  eexists; split; [done|].
  assert (length h ≠ metadata ctx ∧ length h ≠ _records self) as [??] by lia.
  unfold entry, log, elements_at. store_lookup.
  rewrite lookup_delete_eq, popped_length, make_record_elapsed_ms. done.
Qed.

(** C2 fails at a start timestamp of zero: [before_run] stores the clock
    value [0], [after_run] removes it, and the record carries no elapsed
    time although [5000000 - 0] nanoseconds elapsed. *)
Theorem elapsed_absent_for_zero_start :
  let self := {| _records := 0 |} in
  let ctx := {| agent_name := "test-agent"; method := "run"; metadata := 1 |} in
  let h : heap := [OList []; ODict ∅] in
  let h1 := (before_run self "0123456789abcdef0123456789abcdef" 0 ctx h).1 in
  let h2 := (after_run self 5000000 ctx (VStr "x") h1).1 in
  entry h1 1 "lineage_start_ns" = Some (VInt 0) ∧
  entry h2 1 "lineage_start_ns" = None ∧
  field h2 "elapsed_ms" <$> log self h2 = [Some VNone] ∧
  field h2 "elapsed_ms" <$> log self h2 ≠ [Some (VFloat (5000000 # 1000000))] ∧
  field h2 "elapsed_ms" <$> log self h2
  ≠ [Some (VFloat (round_binary64 5000000 1000000))].
Proof. vm_compute. split_and!; [reflexivity..|discriminate|discriminate]. Qed.

(** ** The properties on the test fixtures *)

Lemma after_run_returns_result_witness :
  let h1 := (before_run fixture_middleware "0123456789abcdef0123456789abcdef"
               1000 fake_context fixture_store).1 in
  (after_run fixture_middleware 2000 fake_context (VStr "x") h1).2
  = Ok (VStr "x") ∧
  (after_run fixture_middleware 2000 fake_context (VRef 1) h1).2
  = Ok (VRef 1) ∧
  (after_run fixture_middleware 2000 fake_context VNone fixture_store).2
  = Ok VNone.
Proof.
  cbv zeta. split_and!.
  - refine (proj2 (proj2 (after_run_returns_result fixture_middleware 2000
                            fake_context (VStr "x") _))
              (stamped "0123456789abcdef0123456789abcdef" 1000 "test-agent" ∅)
              [] _ _ _).
    + vm_compute. reflexivity.
    + vm_compute. reflexivity.
    + right. vm_compute. reflexivity.
  - refine (proj1 (proj2 (after_run_returns_result fixture_middleware 2000
                            fake_context (VRef 1) _))
              (VStr "x") _ (VStr "x") _).
    vm_compute. reflexivity.
  - refine (proj2 (proj2 (after_run_returns_result fixture_middleware 2000
                            fake_context VNone fixture_store))
              ∅ [] _ _ _).
    + reflexivity.
    + reflexivity.
    + left. reflexivity.
Defined.

Lemma after_run_without_before_run_witness :
  ∃ h', after_run fixture_middleware 2000 fake_context (VStr "x") fixture_store
        = (h', Ok (VStr "x")) ∧
        log fixture_middleware h' = [] ++ [VRef (length fixture_store)] ∧
        entry h' (length fixture_store) "elapsed_ms" = Some VNone ∧
        entry h' (length fixture_store) "lineage_id" = Some VNone.
Proof.
  apply (after_run_without_before_run fixture_middleware 2000 fake_context
           (VStr "x") fixture_store ∅ []); reflexivity.
Defined.


Lemma second_after_run_repeats_lineage_id_witness :
  let h2 := ((before_run fixture_middleware "0123456789abcdef0123456789abcdef"
                1000 fake_context ;;
              after_run fixture_middleware 2000 fake_context (VStr "x"))
               fixture_store).1 in
  entry h2 (metadata fake_context) "lineage_id"
  = Some (VStr "0123456789abcdef0123456789abcdef") ∧
  ∃ h3, after_run fixture_middleware 3000 fake_context VNone h2 = (h3, Ok VNone) ∧
        log fixture_middleware h3
        = log fixture_middleware fixture_store
          ++ [VRef (length fixture_store); VRef (S (length fixture_store))] ∧
        entry h3 (length fixture_store) "lineage_id"
        = Some (VStr "0123456789abcdef0123456789abcdef") ∧
        entry h3 (S (length fixture_store)) "lineage_id"
        = Some (VStr "0123456789abcdef0123456789abcdef") ∧
        entry h3 (S (length fixture_store)) "elapsed_ms" = Some VNone ∧
        entry h3 (metadata fake_context) "lineage_id"
        = Some (VStr "0123456789abcdef0123456789abcdef").
Proof.
  cbv zeta.
  apply (second_after_run_repeats_lineage_id fixture_middleware
           "0123456789abcdef0123456789abcdef" 1000 2000 3000 fake_context
           (VStr "x") VNone fixture_store _ (VStr "x")).
  vm_compute; reflexivity.
Defined.

Lemma agent_name_read_from_context_witness :
  let renamed := {| agent_name := "renamed-agent"; method := "run";
                    metadata := 1 |} in
  let h2 := ((before_run fixture_middleware "0123456789abcdef0123456789abcdef"
                1000 fake_context ;;
              after_run fixture_middleware 2000 renamed (VStr "x"))
               fixture_store).1 in
  entry h2 (length fixture_store) "agent_name" = Some (VStr "renamed-agent") ∧
  entry h2 (metadata fake_context) "lineage_agent" = Some (VStr "test-agent").
Proof.
  cbv zeta.
  destruct (agent_name_read_from_context fixture_middleware
              "0123456789abcdef0123456789abcdef" 1000 2000 fake_context
              {| agent_name := "renamed-agent"; method := "run"; metadata := 1 |}
              (VStr "x") fixture_store
              ((before_run fixture_middleware "0123456789abcdef0123456789abcdef"
                  1000 fake_context ;;
                after_run fixture_middleware 2000
                  {| agent_name := "renamed-agent"; method := "run"; metadata := 1 |}
                  (VStr "x")) fixture_store).1
              (VStr "x"))
    as (_ & Hname & Hagent & _).
  - reflexivity.
  - vm_compute; reflexivity.
  - split; [exact Hname | exact Hagent].
Defined.

Lemma hooks_raise_only_on_unusable_start_witness :
  (before_run fixture_middleware "0123456789abcdef0123456789abcdef" 1000
     fake_context fixture_store).2 = Ok tt ∧
  (after_run fixture_middleware 2000 fake_context (VStr "x") fixture_store).2
  = Ok (VStr "x") ∧
  (after_run fixture_middleware 2000 fake_context (VStr "x")
     (before_run fixture_middleware "0123456789abcdef0123456789abcdef" 1000
        fake_context fixture_store).1).2 = Ok (VStr "x") ∧
  (after_run fixture_middleware 2000 fake_context (VStr "x")
     [OList []; ODict {[ "lineage_start_ns" := VFloat (3 # 2) ]}]).2
  = Ok (VStr "x") ∧
  (after_run fixture_middleware 2000 fake_context (VStr "x")
     [OList []; ODict {[ "lineage_start_ns" := VRef 0 ]}]).2
  = Ok (VStr "x") ∧
  (after_run fixture_middleware 2000 fake_context (VStr "x")
     [OList [VInt 7]; ODict {[ "lineage_start_ns" := VRef 0 ]}]).2
  = Raise TypeError.
Proof.
  destruct (hooks_raise_only_on_unusable_start fixture_middleware
              "0123456789abcdef0123456789abcdef" 1000 2000 fake_context
              (VStr "x") fixture_store ∅ [])
    as (Hb & _ & Habsent & Hafter); [reflexivity..|].
  destruct (hooks_raise_only_on_unusable_start fixture_middleware
              "0123456789abcdef0123456789abcdef" 1000 2000 fake_context
              (VStr "x")
              [OList []; ODict {[ "lineage_start_ns" := VFloat (3 # 2) ]}]
              {[ "lineage_start_ns" := VFloat (3 # 2) ]} [])
    as (_ & Hfloat & _); [reflexivity..|].
  destruct (hooks_raise_only_on_unusable_start fixture_middleware
              "0123456789abcdef0123456789abcdef" 1000 2000 fake_context
              (VStr "x")
              [OList []; ODict {[ "lineage_start_ns" := VRef 0 ]}]
              {[ "lineage_start_ns" := VRef 0 ]} [])
    as (_ & Hempty & _); [reflexivity..|].
  destruct (hooks_raise_only_on_unusable_start fixture_middleware
              "0123456789abcdef0123456789abcdef" 1000 2000 fake_context
              (VStr "x")
              [OList [VInt 7]; ODict {[ "lineage_start_ns" := VRef 0 ]}]
              {[ "lineage_start_ns" := VRef 0 ]} [VInt 7])
    as (_ & Hself & _); [reflexivity..|].
  split_and!.
  - exact Hb.
  - apply Habsent. reflexivity.
  - rewrite Hafter. vm_compute. reflexivity.
  - rewrite Hfloat. vm_compute. reflexivity.
  - rewrite Hempty. vm_compute. reflexivity.
  - rewrite Hself. vm_compute. reflexivity.
Defined.

Lemma log_holds_completed_after_runs_witness :
  let cs := [BeforeRun "00000000000000000000000000000000" 1000 context_a;
             AfterRun 2000 context_a (VStr "result-0");
             BeforeRun "11111111111111111111111111111111" 3000 context_b;
             BeforeRun "22222222222222222222222222222222" 4000 context_a;
             AfterRun 5000 context_b (VStr "result-1");
             BeforeRun "33333333333333333333333333333333" 6000 context_b] in
  let h' := (run_calls fixture_middleware cs two_context_store).1 in
  let os := (run_calls fixture_middleware cs two_context_store).2 in
  length (log fixture_middleware h') = completed cs os ∧
  completed cs os = 2 ∧
  Forall2 (summarised h') (log fixture_middleware h')
    (records_of_run (lineage_id_at two_context_store) cs os).
Proof.
  cbv zeta.
  match goal with
  | |- length (log _ (run_calls _ ?cs _).1) = _ ∧ _ =>
      destruct (log_holds_completed_after_runs fixture_middleware cs
                  two_context_store
                  (run_calls fixture_middleware cs two_context_store).1
                  (run_calls fixture_middleware cs two_context_store).2)
        as (Hlen & Hall & _)
  end.
  - reflexivity.
  - intros c Hc. repeat (apply elem_of_cons in Hc as [->|Hc]; [simpl; lia|]).
    by apply elem_of_nil in Hc.
  - apply surjective_pairing.
  - split_and!; [exact Hlen | vm_compute; reflexivity | exact Hall].
Defined.

Lemma records_snapshot_independent_witness :
  let h := (run_calls fixture_middleware
              [BeforeRun "00000000000000000000000000000000" 1000 fake_context;
               AfterRun 2000 fake_context (VStr "x")] fixture_store).1 in
  let cs := [BeforeRun "11111111111111111111111111111111" 3000 fake_context;
             AfterRun 4000 fake_context VNone] in
  let h2 := (run_calls fixture_middleware cs (h ++ [OList [VRef 2]])).1 in
  let os := (run_calls fixture_middleware cs (h ++ [OList [VRef 2]])).2 in
  records fixture_middleware h = (h ++ [OList [VRef 2]], Ok (length h)) ∧
  log fixture_middleware h2 = [VRef 2; VRef 4] ∧
  h2 !! length h = Some (OList [VRef 2]) ∧
  run_calls fixture_middleware cs
    (<[length h := OList []]> (h ++ [OList [VRef 2]]))
  = (<[length h := OList []]> h2, os).
Proof.
  cbv zeta.
  set (h := (run_calls fixture_middleware
               [BeforeRun "00000000000000000000000000000000" 1000 fake_context;
                AfterRun 2000 fake_context (VStr "x")] fixture_store).1).
  set (cs := [BeforeRun "11111111111111111111111111111111" 3000 fake_context;
              AfterRun 4000 fake_context VNone]).
  assert (h !! _records fixture_middleware = Some (OList [VRef 2])) as Hr
    by (vm_compute; reflexivity).
  destruct (records_snapshot_independent fixture_middleware h [VRef 2] Hr)
    as [Hsnap Hlater].
  destruct (Hlater cs
              (run_calls fixture_middleware cs (h ++ [OList [VRef 2]])).1
              (run_calls fixture_middleware cs (h ++ [OList [VRef 2]])).2)
    as [Hsame Hmut]; [apply surjective_pairing|].
  split_and!; [exact Hsnap | vm_compute; reflexivity | exact Hsame |].
  apply Hmut. intros (l & d & Hl & Hd).
  destruct l as [|[|[|l]]]; vm_compute in Hl.
  - discriminate.
  - injection Hl as <-. vm_compute in Hd. discriminate.
  - injection Hl as <-. vm_compute in Hd. discriminate.
  - destruct l; discriminate.
Defined.


(** ** Further properties of the middleware *)

(** X1.  On a metadata mapping, [before_run] returns [None] and sets the
    three lineage keys: the token, the context's agent name and the clock
    value.  Every other key of the mapping and every other object of the
    store is left as it was, and nothing is allocated. *)
Theorem before_run_sets_three_keys self lineage_id now ctx (h : heap) d :
  h !! metadata ctx = Some (ODict d) →
  ∃ h' d', before_run self lineage_id now ctx h = (h', Ok tt) ∧
           h' !! metadata ctx = Some (ODict d') ∧
           d' !! "lineage_id" = Some (VStr lineage_id) ∧
           d' !! "lineage_agent" = Some (VStr (agent_name ctx)) ∧
           d' !! "lineage_start_ns" = Some (VInt now) ∧
           (∀ k, k ≠ "lineage_id" → k ≠ "lineage_agent" →
                 k ≠ "lineage_start_ns" → d' !! k = d !! k) ∧
           (∀ l, l ≠ metadata ctx → h' !! l = h !! l) ∧
           length h' = length h.
Proof.
  intros Hm. pose proof (lookup_lt_Some _ _ _ Hm) as Hlm.
  rewrite (before_run_eq self lineage_id now ctx h d Hm).
  eexists _, _. split; [done|]. unfold stamped. split_and!.
  - by apply list_lookup_insert_eq.
  - by simplify_map_eq.
  - by simplify_map_eq.
  - by simplify_map_eq.
  - intros k ???. by rewrite !lookup_insert_ne.
  - intros l Hl. by apply list_lookup_insert_ne.
  - by rewrite length_insert.
Qed.

Lemma before_run_sets_three_keys_witness :
  ∃ h' d',
    before_run fixture_middleware "0123456789abcdef0123456789abcdef" 1000
      fake_context [OList []; ODict {[ "tenant" := VStr "acme" ]}]
    = (h', Ok tt) ∧
    h' !! metadata fake_context = Some (ODict d') ∧
    d' !! "lineage_id" = Some (VStr "0123456789abcdef0123456789abcdef") ∧
    d' !! "lineage_agent" = Some (VStr (agent_name fake_context)) ∧
    d' !! "lineage_start_ns" = Some (VInt 1000) ∧
    (∀ k, k ≠ "lineage_id" → k ≠ "lineage_agent" → k ≠ "lineage_start_ns" →
          d' !! k = ({[ "tenant" := VStr "acme" ]} : gmap string val) !! k) ∧
    (∀ l, l ≠ metadata fake_context →
          h' !! l = [OList []; ODict {[ "tenant" := VStr "acme" ]}] !! l) ∧
    length h' = length [OList []; ODict {[ "tenant" := VStr "acme" ]}].
Proof.
  apply (before_run_sets_three_keys fixture_middleware
           "0123456789abcdef0123456789abcdef" 1000 fake_context
           [OList []; ODict {[ "tenant" := VStr "acme" ]}]
           {[ "tenant" := VStr "acme" ]}).
  reflexivity.
Defined.

(** X2.  A [before_run] on a context whose metadata already carries the
    keys of an earlier [before_run] overwrites all three: the store, and
    the outcome, are those of the later call alone. *)
Theorem before_run_twice_keeps_last self id1 now1 ctx1 id2 now2 ctx2 (h : heap) :
  metadata ctx1 = metadata ctx2 →
  (before_run self id1 now1 ctx1 ;; before_run self id2 now2 ctx2) h
  = before_run self id2 now2 ctx2 h.
Proof.
  intros Hctx. unfold bind at 1.
  destruct (h !! metadata ctx1) as [[d|ys]|] eqn:Hm.
  - pose proof (lookup_lt_Some _ _ _ Hm) as Hlm.
    rewrite (before_run_eq self id1 now1 ctx1 h d Hm).
    rewrite Hctx in *.
    rewrite (before_run_eq self id2 now2 ctx2 h d Hm).
    rewrite (before_run_eq self id2 now2 ctx2 _
               (stamped id1 now1 (agent_name ctx1) d))
      by (by apply list_lookup_insert_eq).
    rewrite list_insert_insert_eq. do 3 f_equal.
    apply map_eq. intros k. unfold stamped.
    destruct (decide (k = "lineage_start_ns")) as [->|?]; [by simplify_map_eq|].
    destruct (decide (k = "lineage_agent")) as [->|?]; [by simplify_map_eq|].
    destruct (decide (k = "lineage_id")) as [->|?]; [by simplify_map_eq|].
    by rewrite !lookup_insert_ne.
  - rewrite before_run_not_dict by congruence.
    rewrite before_run_not_dict; [done|]. rewrite <- Hctx. congruence.
  - rewrite before_run_not_dict by congruence.
    rewrite before_run_not_dict; [done|]. rewrite <- Hctx. congruence.
Qed.

Lemma before_run_twice_keeps_last_witness :
  (before_run fixture_middleware "00000000000000000000000000000000" 1000
     fake_context ;;
   before_run fixture_middleware "11111111111111111111111111111111" 2000
     fake_context) fixture_store
  = before_run fixture_middleware "11111111111111111111111111111111" 2000
      fake_context fixture_store.
Proof.
  apply (before_run_twice_keeps_last fixture_middleware
           "00000000000000000000000000000000" 1000 fake_context
           "11111111111111111111111111111111" 2000 fake_context fixture_store).
  reflexivity.
Defined.

(** X3.  When [after_run] raises on a metadata mapping, the start key has
    already been removed, the other keys, the log and the size of the
    store are as before, and a later [after_run] on the same context
    returns and appends a record without elapsed time. *)
Theorem failed_after_run_consumes_start self now ctx result (h h' : heap) e d xs :
  h !! metadata ctx = Some (ODict d) →
  h !! _records self = Some (OList xs) →
  after_run self now ctx result h = (h', Raise e) →
  entry h' (metadata ctx) "lineage_start_ns" = None ∧
  (∀ k, k ≠ "lineage_start_ns" → entry h' (metadata ctx) k = d !! k) ∧
  log self h' = xs ∧
  length h' = length h ∧
  ∀ now' result',
    ∃ h'', after_run self now' ctx result' h' = (h'', Ok result') ∧
           log self h'' = xs ++ [VRef (length h)] ∧
           entry h'' (length h) "elapsed_ms" = Some VNone.
Proof.
  intros Hm Hr Hrun.
  pose proof (lookup_lt_Some _ _ _ Hm) as Hlm.
  pose proof (lookup_lt_Some _ _ _ Hr) as Hlr.
  assert (_records self ≠ metadata ctx) as Hne by (intros E; congruence).
  rewrite (after_run_recorded self now ctx result h d xs Hm Hr) in Hrun.
  destruct (elapsed_of now (start_entry d) (popped (metadata ctx) d h)).2
    as [v|ex] eqn:He; [done|]. injection Hrun as <- <-.
  assert (popped (metadata ctx) d h !! metadata ctx
          = Some (ODict (delete "lineage_start_ns" d))) as Hm'
    by (by apply popped_lookup_self).
  assert (popped (metadata ctx) d h !! _records self = Some (OList xs)) as Hr'
    by (by rewrite popped_lookup_other).
  unfold entry, log, elements_at. rewrite Hm', Hr'. split_and!.
  - apply lookup_delete_eq.
  - intros k Hk. by apply lookup_delete_ne.
  - done.
  - apply popped_length.
  - intros now' result'.
    rewrite (after_run_recorded self now' ctx result' _ _ xs Hm' Hr').
    rewrite start_entry_deleted, elapsed_of_none. simpl.
    eexists; split; [done|].
    assert (length h ≠ metadata ctx ∧ length h ≠ _records self) as [??] by lia.
    store_lookup. rewrite !popped_length. by rewrite make_record_elapsed_ms.
Qed.

Lemma failed_after_run_consumes_start_witness :
  let h : heap := [OList []; ODict {[ "lineage_start_ns" := VStr "yesterday" ]}] in
  let h' := (after_run fixture_middleware 2000 fake_context (VStr "x") h).1 in
  entry h' (metadata fake_context) "lineage_start_ns" = None ∧
  log fixture_middleware h' = [] ∧
  length h' = length h ∧
  ∃ h'', after_run fixture_middleware 3000 fake_context VNone h' = (h'', Ok VNone) ∧
         log fixture_middleware h'' = [] ++ [VRef (length h)] ∧
         entry h'' (length h) "elapsed_ms" = Some VNone.
Proof.
  cbv zeta.
  destruct (failed_after_run_consumes_start fixture_middleware 2000 fake_context
              (VStr "x")
              [OList []; ODict {[ "lineage_start_ns" := VStr "yesterday" ]}]
              (after_run fixture_middleware 2000 fake_context (VStr "x")
                 [OList []; ODict {[ "lineage_start_ns" := VStr "yesterday" ]}]).1
              TypeError {[ "lineage_start_ns" := VStr "yesterday" ]} [])
    as (Hs & _ & Hlog & Hlen & Hretry).
  - reflexivity.
  - reflexivity.
  - vm_compute. reflexivity.
  - split_and!; [exact Hs | exact Hlog | exact Hlen | exact (Hretry 3000%Z VNone)].
Defined.

(** One call leaves alone every object that is neither the log nor the
    metadata mapping of its context. *)
Lemma call_step_frame self xs (h h1 : heap) c o l :
  call_step self xs h c h1 o →
  h !! _records self = Some (OList xs) →
  l < length h → l ≠ _records self → l ≠ metadata_of c →
  h1 !! l = h !! l ∧ length h ≤ length h1.
Proof.
  intros Hstep Hr Hl Hlr Hlm.
  pose proof (lookup_lt_Some _ _ _ Hr) as Hlen.
  destruct Hstep as [c Hno|tok now ctx d Hm|now ctx result d ex Hm He|now ctx result d e Hm He];
    simpl in Hlm.
  - done.
  - rewrite list_lookup_insert_ne by done. by rewrite length_insert.
  - rewrite popped_lookup_other by done. by rewrite popped_length.
  - rewrite recorded_other by store_lia.
    rewrite popped_lookup_other by done. split; [done|store_lia].
Qed.

(** X4.  A run writes only to the log, to the metadata mappings of the
    contexts it is given, and to the records it allocates: every other
    object of the store is the same after the run. *)
Theorem run_leaves_other_objects self cs : ∀ (h h' : heap) os xs l,
  h !! _records self = Some (OList xs) →
  l < length h →
  l ≠ _records self →
  (∀ c, c ∈ cs → metadata_of c ≠ l) →
  run_calls self cs h = (h', os) →
  h' !! l = h !! l.
Proof.
  induction cs as [|c cs IH]; intros h h' os xs l Hr Hl Hlr Hmeta Hrun;
    simpl in Hrun.
  { by injection Hrun as <- <-. }
  destruct (run_call self c h) as [h1 o] eqn:Hc.
  destruct (run_calls self cs h1) as [h2 os'] eqn:Hcs.
  injection Hrun as <- <-.
  apply (run_call_step self c h h1 o xs Hr) in Hc.
  destruct (call_step_dicts self xs h h1 c o Hc Hr) as [[xs' Hr1] _].
  destruct (call_step_frame self xs h h1 c o l Hc Hr Hl Hlr) as [Hsame Hlen].
  { intros E. apply (Hmeta c); [by left|done]. }
  rewrite <- Hsame. apply (IH h1 h2 os' xs' l); [done|lia|done| |done].
  intros c' Hc'. apply Hmeta. by right.
Qed.

Lemma run_leaves_other_objects_witness :
  let h : heap := [OList []; ODict ∅; ODict {[ "owner" := VStr "caller" ]}] in
  let cs := [BeforeRun "00000000000000000000000000000000" 1000 fake_context;
             AfterRun 2000 fake_context (VStr "x")] in
  (run_calls fixture_middleware cs h).1 !! 2 = h !! 2.
Proof.
  cbv zeta.
  eapply (run_leaves_other_objects fixture_middleware
            [BeforeRun "00000000000000000000000000000000" 1000 fake_context;
             AfterRun 2000 fake_context (VStr "x")] _ _ _ []).
  - reflexivity.
  - simpl. lia.
  - simpl. lia.
  - intros c Hc. repeat (apply elem_of_cons in Hc as [->|Hc]; [simpl; lia|]).
    by apply elem_of_nil in Hc.
  - apply surjective_pairing.
Defined.

(** X5.  A [before_run] at a non-zero clock value followed by an
    [after_run] on the same metadata appends one record that carries the
    token, the agent name and method of the context at [after_run], the
    result flag, and the binary64 nearest to the clock difference divided
    by [10^6]; with a clock that did not go back the elapsed time is not
    negative. *)
Theorem before_after_pair_record self lineage_id now0 now1 ctx ctx' result
    (h : heap) d xs :
  h !! metadata ctx = Some (ODict d) →
  h !! _records self = Some (OList xs) →
  metadata ctx' = metadata ctx →
  now0 ≠ 0%Z →
  elapsed_in_range now1 now0 →
  ∃ h2, (before_run self lineage_id now0 ctx ;; after_run self now1 ctx' result) h
        = (h2, Ok result) ∧
        log self h2 = xs ++ [VRef (length h)] ∧
        summarised h2 (VRef (length h))
          {| rec_lineage_id := VStr lineage_id;
             rec_agent_name := agent_name ctx';
             rec_method := method ctx';
             rec_has_result := negb (is_none result) |} ∧
        entry h2 (length h) "elapsed_ms"
        = Some (VFloat (round_binary64 (now1 - now0) 1000000)) ∧
        ((now0 <= now1)%Z → (0 <= round_binary64 (now1 - now0) 1000000)%Q).
Proof.
  intros Hm Hr Hctx Hnz Hrange.
  pose proof (lookup_lt_Some _ _ _ Hm) as Hlm.
  pose proof (lookup_lt_Some _ _ _ Hr) as Hlr.
  assert (_records self ≠ metadata ctx) as Hne by (intros E; congruence).
  unfold bind. rewrite (before_run_eq self lineage_id now0 ctx h d Hm).
  set (d1 := stamped lineage_id now0 (agent_name ctx) d).
  set (h1 := <[metadata ctx := ODict d1]> h).
  assert (h1 !! metadata ctx' = Some (ODict d1)) as Hm1
    by (rewrite Hctx; subst h1; by apply list_lookup_insert_eq).
  assert (h1 !! _records self = Some (OList xs)) as Hr1
    by (subst h1; by rewrite list_lookup_insert_ne).
  assert (length h1 = length h) as Hl1 by (subst h1; by rewrite length_insert).
  rewrite (after_run_recorded self now1 ctx' result h1 d1 xs Hm1 Hr1).
  rewrite Hctx. unfold d1 at 1. rewrite stamped_start.
  rewrite elapsed_of_int by done. simpl.
  eexists; split; [done|].
  assert (length h ≠ metadata ctx ∧ length h ≠ _records self) as [??] by lia.
  unfold log, elements_at, summarised, field, entry. store_lookup.
  rewrite popped_length, Hl1.
  rewrite make_record_lineage_id, make_record_agent_name, make_record_method,
    make_record_has_result, make_record_elapsed_ms. simpl.
  split_and!; try done.
  - subst d1. unfold stamped. by simplify_map_eq.
  - intros Hle. apply round_binary64_nonneg. lia.
Qed.

Lemma before_after_pair_record_witness :
  ∃ h2, (before_run fixture_middleware "0123456789abcdef0123456789abcdef" 1000
           fake_context ;;
         after_run fixture_middleware 3500000 fake_context (VStr "x"))
          fixture_store = (h2, Ok (VStr "x")) ∧
        log fixture_middleware h2 = [] ++ [VRef (length fixture_store)] ∧
        summarised h2 (VRef (length fixture_store))
          {| rec_lineage_id := VStr "0123456789abcdef0123456789abcdef";
             rec_agent_name := agent_name fake_context;
             rec_method := method fake_context;
             rec_has_result := negb (is_none (VStr "x")) |} ∧
        entry h2 (length fixture_store) "elapsed_ms"
        = Some (VFloat (7879047548084683 # 2251799813685248)) ∧
        ((1000 <= 3500000)%Z → (0 <= 7879047548084683 # 2251799813685248)%Q).
Proof.
  assert (round_binary64 (3500000 - 1000) 1000000
          = (7879047548084683 # 2251799813685248)%Q) as E
    by (vm_compute; reflexivity).
  rewrite <- E.
  apply (before_after_pair_record fixture_middleware
           "0123456789abcdef0123456789abcdef" 1000 3500000 fake_context
           fake_context (VStr "x") fixture_store ∅ []).
  - reflexivity.
  - reflexivity.
  - reflexivity.
  - discriminate.
  - vm_compute. reflexivity.
Defined.

(** X6.  Two reads of [records] give two different new lists, neither of
    them the log itself, with the same elements as the log; the objects
    that existed before are unchanged. *)
Theorem records_twice_gives_equal_new_lists self (h : heap) xs :
  h !! _records self = Some (OList xs) →
  ∃ h1 h2 s1 s2,
    records self h = (h1, Ok s1) ∧
    records self h1 = (h2, Ok s2) ∧
    s1 ≠ s2 ∧ s1 ≠ _records self ∧ s2 ≠ _records self ∧
    elements_at h2 s1 = xs ∧
    elements_at h2 s2 = xs ∧
    log self h2 = xs ∧
    ∀ l, l < length h → h2 !! l = h !! l.
Proof.
  intros Hr. pose proof (lookup_lt_Some _ _ _ Hr) as Hlr.
  exists (h ++ [OList xs]), ((h ++ [OList xs]) ++ [OList xs]),
    (length h), (length (h ++ [OList xs])).
  unfold records, list_copy, alloc, log, elements_at.
  rewrite Hr. rewrite (lookup_app_l h) by done. rewrite Hr.
  rewrite length_app. simpl.
  split_and!; try done; try lia.
  - rewrite lookup_app_l by (rewrite length_app; simpl; lia).
    by rewrite lookup_app_r, Nat.sub_diag by lia.
  - rewrite lookup_app_r by (rewrite length_app; simpl; lia).
    rewrite length_app. simpl. by rewrite Nat.sub_diag.
  - rewrite !lookup_app_l by (rewrite ?length_app; simpl; lia). by rewrite Hr.
  - intros l Hl. by rewrite !lookup_app_l by (rewrite ?length_app; simpl; lia).
Qed.

Lemma records_twice_gives_equal_new_lists_witness :
  ∃ h1 h2 s1 s2,
    records fixture_middleware fixture_store = (h1, Ok s1) ∧
    records fixture_middleware h1 = (h2, Ok s2) ∧
    s1 ≠ s2 ∧ s1 ≠ _records fixture_middleware ∧
    s2 ≠ _records fixture_middleware ∧
    elements_at h2 s1 = [] ∧
    elements_at h2 s2 = [] ∧
    log fixture_middleware h2 = [] ∧
    ∀ l, l < length fixture_store → h2 !! l = fixture_store !! l.
Proof.
  apply (records_twice_gives_equal_new_lists fixture_middleware fixture_store []).
  reflexivity.
Defined.

(** X7.  The list [records] returns holds the same record dictionaries as
    the log (the copy is shallow): a key written into a record through the
    returned list shows in the record read through the log. *)
Theorem record_shared_by_snapshot_and_log self (h : heap) xs i r d k v :
  h !! _records self = Some (OList xs) →
  xs !! i = Some (VRef r) →
  h !! r = Some (ODict d) →
  ∃ h1 s h2,
    records self h = (h1, Ok s) ∧
    s ≠ _records self ∧
    elements_at h1 s !! i = Some (VRef r) ∧
    dict_setitem r k v h1 = (h2, Ok tt) ∧
    (field h2 k <$> log self h2) !! i = Some (Some v).
Proof.
  intros Hr Hi Hd.
  pose proof (lookup_lt_Some _ _ _ Hr) as Hlr.
  pose proof (lookup_lt_Some _ _ _ Hd) as Hld.
  assert (r ≠ _records self) as Hne by (intros E; congruence).
  exists (h ++ [OList xs]), (length h),
    (<[r := ODict (<[k := v]> d)]> (h ++ [OList xs])).
  unfold records, list_copy, alloc, dict_setitem, log, elements_at.
  rewrite Hr. rewrite (lookup_app_l h _ r) by done. rewrite Hd.
  rewrite lookup_app_r, Nat.sub_diag by lia. simpl.
  split_and!; [done|lia|done|done|].
  rewrite list_lookup_insert_ne by done.
  rewrite lookup_app_l, Hr by done.
  rewrite list_lookup_fmap, Hi. simpl. unfold entry.
  rewrite list_lookup_insert_eq by (rewrite length_app; lia).
  by rewrite lookup_insert_eq.
Qed.

Lemma record_shared_by_snapshot_and_log_witness :
  let h := (run_calls fixture_middleware
              [BeforeRun "00000000000000000000000000000000" 1000 fake_context;
               AfterRun 2000 fake_context (VStr "x")] fixture_store).1 in
  ∃ h1 s h2,
    records fixture_middleware h = (h1, Ok s) ∧
    s ≠ _records fixture_middleware ∧
    elements_at h1 s !! 0 = Some (VRef 2) ∧
    dict_setitem 2 "agent_name" (VStr "edited") h1 = (h2, Ok tt) ∧
    (field h2 "agent_name" <$> log fixture_middleware h2) !! 0
    = Some (Some (VStr "edited")).
Proof.
  cbv zeta.
  eapply (record_shared_by_snapshot_and_log fixture_middleware _ [VRef 2] 0 2).
  - vm_compute. reflexivity.
  - reflexivity.
  - vm_compute. reflexivity.
Defined.

(** X8.  Two middlewares made by [__init__] have different, empty logs,
    and no run of calls on the first one changes the log of the second. *)
Theorem instances_have_separate_logs (h : heap) :
  ∃ h1 m1 h2 m2,
    init h = (h1, Ok m1) ∧
    init h1 = (h2, Ok m2) ∧
    _records m1 ≠ _records m2 ∧
    log m1 h2 = [] ∧
    log m2 h2 = [] ∧
    ∀ cs (h3 : heap) os, run_calls m1 cs h2 = (h3, os) → log m2 h3 = [].
Proof.
  exists (h ++ [OList []]), {| _records := length h |},
    ((h ++ [OList []]) ++ [OList []]), {| _records := length (h ++ [OList []]) |}.
  unfold init, bind, alloc, ret, log, elements_at. simpl.
  rewrite length_app. simpl.
  assert (((h ++ [OList []]) ++ [OList []]) !! length h = Some (OList [])) as H1.
  { rewrite lookup_app_l by (rewrite length_app; simpl; lia).
    by rewrite lookup_app_r, Nat.sub_diag by lia. }
  assert (((h ++ [OList []]) ++ [OList []]) !! (length h + 1) = Some (OList [])) as H2.
  { rewrite lookup_app_r by (rewrite length_app; simpl; lia).
    rewrite length_app. simpl. by rewrite Nat.sub_diag. }
  rewrite H1, H2. split_and!; try done; try lia.
  intros cs h3 os Hrun.
  destruct (run_calls_snapshot {| _records := length h |} (length h + 1) [] cs
              _ h3 os [] H1 H2) as [Hs _]; [simpl; lia|done|].
  by rewrite Hs.
Qed.

Lemma instances_have_separate_logs_witness :
  ∃ h1 m1 h2 m2,
    init [ODict ∅] = (h1, Ok m1) ∧
    init h1 = (h2, Ok m2) ∧
    _records m1 ≠ _records m2 ∧
    log m1 h2 = [] ∧
    log m2 h2 = [] ∧
    ∀ cs (h3 : heap) os, run_calls m1 cs h2 = (h3, os) → log m2 h3 = [].
Proof. exact (instances_have_separate_logs [ODict ∅]). Defined.

(** ** The quality gate *)

(** With rules that do not write the store, the loop of [execute] calls
    every rule on the same store and collects the violations in the order
    of the rules. *)
Lemma check_rules_read_only rules : ∀ inputs acc (h : heap),
  Forall (λ r, QualityGateStep.read_only r.1) rules →
  QualityGateStep.check_rules rules inputs acc h
  = (h, acc ++ omap (QualityGateStep.violation inputs h) rules).
Proof.
  induction rules as [|[c description] rules IH]; intros inputs acc h Hro.
  { simpl. by rewrite app_nil_r. }
  apply Forall_cons in Hro as [Hc Hro]. simpl in Hc.
  simpl. unfold QualityGateStep.violation at 1. simpl.
  pose proof (Hc inputs h) as Hh.
  destruct (c inputs h) as [h1 [passed|exc]]; simpl in Hh; subst h1; simpl.
  - destruct (is_truthy h passed).
    + by rewrite IH.
    + rewrite IH by done. by rewrite <- (assoc_L (++)).
  - rewrite IH by done. by rewrite <- (assoc_L (++)).
Qed.

(** *** Equations of the step primitives *)

Lemma step_bind_return {A B} (c : Step A) (k : A → Step B) (h h1 : heap) a :
  c h = (h1, Return a) → step_bind c k h = k a h1.
Proof. intros Hc. unfold step_bind. by rewrite Hc. Qed.

Lemma step_bind_throw {A B} (c : Step A) (k : A → Step B) (h h1 : heap) e :
  c h = (h1, Throw e) → step_bind c k h = (h1, Throw e).
Proof. intros Hc. unfold step_bind. by rewrite Hc. Qed.

Lemma step_bind_assoc {A B C} (c : Step A) (k : A → Step B) (k' : B → Step C)
    (h : heap) :
  step_bind (step_bind c k) k' h = step_bind c (λ x, step_bind (k x) k') h.
Proof. unfold step_bind. by destruct (c h) as [h1 [a|e]]. Qed.

Lemma new_list_eq (h : heap) :
  new_list h = (h ++ [OList []], Return (VRef (length h))).
Proof. done. Qed.

Lemma dict_setdefault_value_absent l k v (h : heap) d :
  h !! l = Some (ODict d) → d !! k = None →
  dict_setdefault l k (step_ret v) h
  = (<[l := ODict (<[k := v]> d)]> h, Return v).
Proof. intros Hl Hk. unfold dict_setdefault, step_ret. by rewrite Hl, Hk. Qed.

Lemma dict_setdefault_value_present l k v (h : heap) d x :
  h !! l = Some (ODict d) → d !! k = Some x →
  dict_setdefault l k (step_ret v) h = (h, Return x).
Proof. intros Hl Hk. unfold dict_setdefault, step_ret. by rewrite Hl, Hk. Qed.

Lemma dict_setdefault_list_absent l k (h : heap) d :
  h !! l = Some (ODict d) → d !! k = None →
  dict_setdefault l k new_list h
  = (<[l := ODict (<[k := VRef (length h)]> d)]> (h ++ [OList []]),
     Return (VRef (length h))).
Proof.
  intros Hl Hk. pose proof (lookup_lt_Some _ _ _ Hl) as Hlt.
  unfold dict_setdefault. rewrite Hl, new_list_eq.
  by rewrite lookup_app_l, Hl, Hk by done.
Qed.

Lemma dict_setdefault_list_present l k (h : heap) d x :
  h !! l = Some (ODict d) → d !! k = Some x →
  dict_setdefault l k new_list h = (h ++ [OList []], Return x).
Proof.
  intros Hl Hk. pose proof (lookup_lt_Some _ _ _ Hl) as Hlt.
  unfold dict_setdefault. rewrite Hl, new_list_eq.
  by rewrite lookup_app_l, Hl, Hk by done.
Qed.

Lemma dict_setdefault_no_dict l k default (h : heap) :
  (∀ d, h !! l ≠ Some (ODict d)) →
  dict_setdefault l k default h = (h, Throw AttributeError).
Proof.
  intros Hl. unfold dict_setdefault.
  destruct (h !! l) as [[d|xs]|] eqn:E; try done. by destruct (Hl d).
Qed.

Lemma dict_getitem_some l k (h : heap) d v :
  h !! l = Some (ODict d) → d !! k = Some v →
  dict_getitem l k h = (h, Return v).
Proof. intros Hl Hk. unfold dict_getitem. by rewrite Hl, Hk. Qed.

Lemma of_M_dict_setitem l k v (h : heap) d :
  h !! l = Some (ODict d) →
  of_M (dict_setitem l k v) h = (<[l := ODict (<[k := v]> d)]> h, Return tt).
Proof. intros Hl. unfold of_M, dict_setitem. by rewrite Hl. Qed.


(** X9.  When every rule passes, [execute] returns the inputs it was
    given and adds the number of rules to [quality_checks_passed] in the
    context metadata, starting from [0] when the key is missing; nothing
    else in the store changes. *)
Theorem quality_gate_passes self ctx inputs (h : heap) d z :
  Forall (λ r, QualityGateStep.read_only r.1) (QualityGateStep._rules self) →
  omap (QualityGateStep.violation inputs h) (QualityGateStep._rules self) = [] →
  h !! PipelineContext.metadata ctx = Some (ODict d) →
  (d !! "quality_checks_passed" = None ∧ z = 0%Z ∨
   d !! "quality_checks_passed" = Some (VInt z)) →
  QualityGateStep.execute self ctx inputs h
  = (<[PipelineContext.metadata ctx :=
         ODict (<["quality_checks_passed" :=
                    VInt (z + Z.of_nat (length (QualityGateStep._rules self)))]> d)]> h,
     Return inputs).
Proof.
  intros Hro Hall Hm Hz. pose proof (lookup_lt_Some _ _ _ Hm) as Hlm.
  unfold QualityGateStep.execute.
  rewrite check_rules_read_only, Hall by done. simpl app. cbv iota beta.
  destruct Hz as [[Hz ->]|Hz].
  - erewrite step_bind_return by (by eapply dict_setdefault_value_absent).
    erewrite step_bind_return
      by (eapply dict_getitem_some;
          [by apply list_lookup_insert_eq | apply lookup_insert_eq]).
    erewrite step_bind_return by reflexivity.
    erewrite step_bind_return
      by (eapply of_M_dict_setitem; by apply list_lookup_insert_eq).
    unfold step_ret. by rewrite list_insert_insert_eq, insert_insert_eq.
  - erewrite step_bind_return by (by eapply dict_setdefault_value_present).
    erewrite step_bind_return by (by eapply dict_getitem_some).
    erewrite step_bind_return by reflexivity.
    erewrite step_bind_return by (by eapply of_M_dict_setitem).
    done.
Qed.

Lemma quality_gate_passes_witness :
  let positive : QualityGateStep.check :=
    λ inputs h, (h, QualityGateStep.Passed (VBool true)) in
  let self := QualityGateStep.init
                [QualityGateStep.Callable positive;
                 QualityGateStep.Pair positive "has-country"] in
  let ctx := {| PipelineContext.correlation_id := VStr "corr-abc-123";
                PipelineContext.metadata := 0 |} in
  QualityGateStep.execute self ctx (VRef 1)
    [ODict {[ "quality_checks_passed" := VInt 3 ]}; ODict ∅]
  = (<[0 := ODict (<["quality_checks_passed" := VInt (3 + Z.of_nat 2)]>
                     {[ "quality_checks_passed" := VInt 3 ]})]>
       [ODict {[ "quality_checks_passed" := VInt 3 ]}; ODict ∅],
     Return (VRef 1)).
Proof.
  cbv zeta.
  apply (quality_gate_passes
           (QualityGateStep.init
              [QualityGateStep.Callable
                 (λ inputs h, (h, QualityGateStep.Passed (VBool true)));
               QualityGateStep.Pair
                 (λ inputs h, (h, QualityGateStep.Passed (VBool true)))
                 "has-country"])
           {| PipelineContext.correlation_id := VStr "corr-abc-123";
              PipelineContext.metadata := 0 |}
           (VRef 1) [ODict {[ "quality_checks_passed" := VInt 3 ]}; ODict ∅]
           {[ "quality_checks_passed" := VInt 3 ]} 3).
  - repeat constructor.
  - reflexivity.
  - reflexivity.
  - right. reflexivity.
Defined.

Lemma insert_last (h : heap) (o o' : obj) :
  <[length h := o']> (h ++ [o]) = h ++ [o'].
Proof.
  rewrite insert_app_r_alt by lia. by rewrite Nat.sub_diag.
Qed.





Lemma enumerate_rules_lookup rules : ∀ idx i,
  QualityGateStep.enumerate_rules idx rules !! i
  = (λ r, match r with
          | QualityGateStep.Pair c description => (c, description)
          | QualityGateStep.Callable c => (c, "rule_" +:+ pretty (idx + i))
          end) <$> rules !! i.
Proof.
  induction rules as [|r rules IH]; intros idx i; [done|].
  destruct i as [|i].
  - rewrite Nat.add_0_r. by destruct r.
  - replace (idx + S i) with (S idx + i) by lia.
    destruct r; simpl; apply IH.
Qed.

(** X12.  [__init__] keeps the rules in order.  A rule given with a
    description keeps it; a rule given alone at position [i] is described
    as ["rule_i"], where [i] counts all the rules before it, so two rules
    given alone never get the same description. *)
Theorem quality_gate_default_descriptions rules :
  length (QualityGateStep._rules (QualityGateStep.init rules)) = length rules ∧
  (∀ i c description,
     rules !! i = Some (QualityGateStep.Pair c description) →
     QualityGateStep._rules (QualityGateStep.init rules) !! i
     = Some (c, description)) ∧
  (∀ i c,
     rules !! i = Some (QualityGateStep.Callable c) →
     QualityGateStep._rules (QualityGateStep.init rules) !! i
     = Some (c, "rule_" +:+ pretty i)) ∧
  (∀ i j ci cj di dj,
     rules !! i = Some (QualityGateStep.Callable ci) →
     rules !! j = Some (QualityGateStep.Callable cj) →
     QualityGateStep._rules (QualityGateStep.init rules) !! i = Some (ci, di) →
     QualityGateStep._rules (QualityGateStep.init rules) !! j = Some (cj, dj) →
     i ≠ j → di ≠ dj).
Proof.
  unfold QualityGateStep.init. simpl. split_and!.
  - generalize 0. induction rules as [|[c|c d] rules IH]; intros n; simpl;
      [done|by rewrite IH..].
  - intros i c description Hi. by rewrite enumerate_rules_lookup, Hi.
  - intros i c Hi. by rewrite enumerate_rules_lookup, Hi.
  - intros i j ci cj di dj Hi Hj Hdi Hdj Hij.
    rewrite enumerate_rules_lookup, Hi in Hdi.
    rewrite enumerate_rules_lookup, Hj in Hdj.
    simpl in Hdi, Hdj. injection Hdi as <-. injection Hdj as <-.
    intros Heq. apply (inj (String.app "rule_")) in Heq.
    apply (inj pretty) in Heq. done.
Qed.

Lemma quality_gate_default_descriptions_witness :
  let positive : QualityGateStep.check :=
    λ inputs h, (h, QualityGateStep.Passed (VBool true)) in
  let rules := [QualityGateStep.Callable positive;
                QualityGateStep.Pair positive "has-country";
                QualityGateStep.Callable positive] in
  QualityGateStep._rules (QualityGateStep.init rules) !! 1
  = Some (positive, "has-country") ∧
  QualityGateStep._rules (QualityGateStep.init rules) !! 2
  = Some (positive, "rule_" +:+ pretty 2) ∧
  "rule_0" ≠ "rule_2".
Proof.
  cbv zeta.
  destruct (quality_gate_default_descriptions
              [QualityGateStep.Callable
                 (λ inputs h, (h, QualityGateStep.Passed (VBool true)));
               QualityGateStep.Pair
                 (λ inputs h, (h, QualityGateStep.Passed (VBool true)))
                 "has-country";
               QualityGateStep.Callable
                 (λ inputs h, (h, QualityGateStep.Passed (VBool true)))])
    as (_ & Hpair & Hbare & Hdiff).
  split_and!.
  - apply Hpair. reflexivity.
  - apply Hbare. reflexivity.
  - eapply (Hdiff 0 2); [reflexivity..|lia].
Defined.



(** ** The enrichment step *)

Lemma dict_copy_dict i (h : heap) d :
  h !! i = Some (ODict d) →
  dict_copy (VRef i) h = (h ++ [ODict d], Return (length h)).
Proof. intros Hi. unfold dict_copy. by rewrite Hi. Qed.

Lemma of_M_dict_pop l k (h : heap) d :
  h !! l = Some (ODict d) →
  of_M (dict_pop l k VNone) h
  = (<[l := ODict (delete k d)]> h, Return (default VNone (d !! k))).
Proof.
  intros Hl. unfold of_M, dict_pop. rewrite Hl.
  destruct (d !! k) as [v|] eqn:Hk; simpl; [done|].
  by rewrite delete_id, insert_lookup_same.
Qed.

Lemma of_M_alloc o (h : heap) :
  of_M (alloc o) h = (h ++ [o], Return (length h)).
Proof. done. Qed.

(** [execute] up to the call of the HTTP library. *)
Lemma enrichment_step_eq {R} (lib : DataStarterClient.httpx R) self ctx i
    (h : heap) d :
  h !! i = Some (ODict d) →
  EnrichmentStep.execute lib self ctx (VRef i) h
  = step_bind (DataStarterClient.call lib (EnrichmentStep.request h))
      (EnrichmentStep.note_result self ctx)
      (EnrichmentStep.request_store self h d).
Proof.
  intros Hi. unfold EnrichmentStep.request, EnrichmentStep.request_store.
  set (tenant := default VNone (d !! "tenant_id")).
  set (payload := DataStarterClient.enrichment_payload _ _ _).
  unfold EnrichmentStep.execute.
  erewrite step_bind_return by (by eapply dict_copy_dict).
  erewrite step_bind_return.
  2:{ eapply of_M_dict_pop. by rewrite lookup_app_r, Nat.sub_diag by lia. }
  rewrite insert_last. fold tenant.
  unfold DataStarterClient.enrich, DataStarterClient.post_enrichment.
  rewrite !step_bind_assoc.
  rewrite (step_bind_return _ _ _ _ _ (of_M_alloc _ _)).
  rewrite length_app. simpl length. rewrite Nat.add_1_r.
  fold payload. rewrite <- (assoc_L (++)). simpl app.
  destruct (is_none tenant); cbv iota; rewrite step_bind_assoc.
  - by rewrite (step_bind_return (step_ret ()) _ _ _ () eq_refl).
  - erewrite step_bind_return; [done|].
    erewrite of_M_dict_setitem.
    2:{ rewrite (lookup_app_r h) by lia.
        replace (S (length h) - length h) with 1 by lia. done. }
    f_equal. rewrite insert_app_r_alt by lia.
    by replace (S (length h) - length h) with 1 by lia.
Qed.

(** X14.  [execute] works on a copy of the inputs.  When it calls the HTTP
    library the inputs dictionary is as it was given, the payload's
    [parameters] is a new dictionary holding the inputs without
    [tenant_id], [type] and [strategy] are those of the step, and
    [tenantId] is present exactly when the inputs hold a [tenant_id] that
    is not [None]; the call is one POST to [/api/v1/enrichment], followed
    by the bookkeeping of [execute]. *)
Theorem enrichment_step_sends_copy {R} (lib : DataStarterClient.httpx R)
    self ctx i (h : heap) d :
  h !! i = Some (ODict d) →
  let hs := EnrichmentStep.request_store self h d in
  let req := EnrichmentStep.request h in
  EnrichmentStep.execute lib self ctx (VRef i) h
  = step_bind (DataStarterClient.call lib req)
      (EnrichmentStep.note_result self ctx) hs ∧
  hs !! i = Some (ODict d) ∧
  (∀ l, l < length h → hs !! l = h !! l) ∧
  ∃ p q,
    DataStarterClient.json req = Some (VRef p) ∧
    entry hs p "type" = Some (EnrichmentStep._enrichment_type self) ∧
    entry hs p "strategy" = Some (EnrichmentStep._strategy self) ∧
    entry hs p "parameters" = Some (VRef q) ∧
    q ≠ i ∧
    hs !! q = Some (ODict (delete "tenant_id" d)) ∧
    entry hs p "tenantId"
    = match d !! "tenant_id" with
      | Some v => if is_none v then None else Some v
      | None => None
      end.
Proof.
  intros Hi hs req. pose proof (lookup_lt_Some _ _ _ Hi) as Hlt.
  split; [by apply enrichment_step_eq|].
  subst hs. unfold EnrichmentStep.request_store.
  split; [by rewrite lookup_app_l|].
  split; [intros l Hl; by rewrite lookup_app_l|].
  exists (S (length h)), (length h). unfold entry.
  rewrite (lookup_app_r h _ (S (length h))) by lia.
  rewrite (lookup_app_r h _ (length h)) by lia.
  replace (S (length h) - length h) with 1 by lia. rewrite Nat.sub_diag. simpl.
  unfold DataStarterClient.enrichment_payload.
  destruct (d !! "tenant_id") as [v|]; simpl; [destruct (is_none v)|];
    split_and!; try done; try lia; by simplify_map_eq.
Qed.

Lemma enrichment_step_sends_copy_witness :
  let lib : DataStarterClient.httpx val :=
    {| DataStarterClient.send := λ req, step_ret (VStr "response");
       DataStarterClient.raise_for_status := λ r, step_ret tt;
       DataStarterClient.body := λ r, step_ret (VStr "enriched") |} in
  let self := {| EnrichmentStep._enrichment_type := VStr "ADDRESS";
                 EnrichmentStep._strategy := VStr "ENHANCE" |} in
  let ctx := {| PipelineContext.correlation_id := VStr "corr-abc-123";
                PipelineContext.metadata := 0 |} in
  let d : gmap string val :=
    <["country" := VStr "US"]> {[ "tenant_id" := VStr "t1" ]} in
  let h : heap := [ODict ∅; ODict d] in
  let hs := EnrichmentStep.request_store self h d in
  hs !! 1 = Some (ODict d) ∧
  entry hs 3 "tenantId" = Some (VStr "t1") ∧
  entry hs 2 "tenant_id" = None ∧
  entry hs 2 "country" = Some (VStr "US").
Proof.
  cbv zeta.
  destruct (enrichment_step_sends_copy
              {| DataStarterClient.send := λ req, step_ret (VStr "response");
                 DataStarterClient.raise_for_status := λ r, step_ret tt;
                 DataStarterClient.body := λ r, step_ret (VStr "enriched") |}
              {| EnrichmentStep._enrichment_type := VStr "ADDRESS";
                 EnrichmentStep._strategy := VStr "ENHANCE" |}
              {| PipelineContext.correlation_id := VStr "corr-abc-123";
                 PipelineContext.metadata := 0 |}
              1
              [ODict ∅;
               ODict (<["country" := VStr "US"]> {[ "tenant_id" := VStr "t1" ]})]
              (<["country" := VStr "US"]> {[ "tenant_id" := VStr "t1" ]}))
    as (_ & Hinputs & _); [reflexivity|].
  split; [exact Hinputs|]. vm_compute. by split_and!.
Defined.

(** X15.  When the call of the HTTP library raises, [execute] raises the
    same exception and does nothing more: the store is the one the library
    left, without any entry added to the context metadata. *)
Theorem enrichment_step_failure_records_nothing {R}
    (lib : DataStarterClient.httpx R) self ctx i (h h1 : heap) d e :
  h !! i = Some (ODict d) →
  DataStarterClient.call lib (EnrichmentStep.request h)
    (EnrichmentStep.request_store self h d) = (h1, Throw e) →
  EnrichmentStep.execute lib self ctx (VRef i) h = (h1, Throw e).
Proof.
  intros Hi Hcall. rewrite (enrichment_step_eq lib self ctx i h d Hi).
  by apply step_bind_throw.
Qed.

Lemma enrichment_step_failure_records_nothing_witness :
  let lib : DataStarterClient.httpx val :=
    {| DataStarterClient.send := λ req, step_ret (VStr "response");
       DataStarterClient.raise_for_status :=
         λ r, throw (External "HTTPStatusError");
       DataStarterClient.body := λ r, step_ret (VStr "enriched") |} in
  let self := {| EnrichmentStep._enrichment_type := VStr "ADDRESS";
                 EnrichmentStep._strategy := VStr "ENHANCE" |} in
  let ctx := {| PipelineContext.correlation_id := VStr "corr-abc-123";
                PipelineContext.metadata := 0 |} in
  let h : heap := [ODict ∅; ODict {[ "country" := VStr "US" ]}] in
  EnrichmentStep.execute lib self ctx (VRef 1) h
  = (EnrichmentStep.request_store self h {[ "country" := VStr "US" ]},
     Throw (External "HTTPStatusError")).
Proof.
  cbv zeta.
  apply (enrichment_step_failure_records_nothing
           {| DataStarterClient.send := λ req, step_ret (VStr "response");
              DataStarterClient.raise_for_status :=
                λ r, throw (External "HTTPStatusError");
              DataStarterClient.body := λ r, step_ret (VStr "enriched") |}
           _ _ 1 _ _ {[ "country" := VStr "US" ]}).
  - reflexivity.
  - reflexivity.
Defined.

Lemma list_append_new_list l o (h : heap) xs :
  h !! l = Some (OList xs) →
  list_append_new (VRef l) o h
  = (<[l := OList (xs ++ [VRef (length h)])]> (h ++ [ODict o]), Return tt).
Proof. intros Hl. unfold list_append_new. by rewrite Hl. Qed.

(** X16.  When the call of the HTTP library returns, [execute] returns
    its result and appends one dictionary with the step's type and
    strategy and the context's correlation id to the list under
    [enrichment_results] in the context metadata, after the entries the
    list already holds; the list is created when the key is missing. *)
Theorem enrichment_step_success_records_entry {R}
    (lib : DataStarterClient.httpx R) self ctx i (h h1 : heap) d result dm old :
  h !! i = Some (ODict d) →
  DataStarterClient.call lib (EnrichmentStep.request h)
    (EnrichmentStep.request_store self h d) = (h1, Return result) →
  h1 !! PipelineContext.metadata ctx = Some (ODict dm) →
  (dm !! "enrichment_results" = None ∧ old = [] ∨
   ∃ l, dm !! "enrichment_results" = Some (VRef l) ∧ h1 !! l = Some (OList old)) →
  ∃ h2 l r,
    EnrichmentStep.execute lib self ctx (VRef i) h = (h2, Return result) ∧
    entry h2 (PipelineContext.metadata ctx) "enrichment_results"
    = Some (VRef l) ∧
    h2 !! l = Some (OList (old ++ [VRef r])) ∧
    length h1 ≤ r ∧
    h2 !! r = Some (ODict (EnrichmentStep.summary self ctx)).
Proof.
  intros Hi Hcall Hm Hold. pose proof (lookup_lt_Some _ _ _ Hm) as Hlm.
  rewrite (enrichment_step_eq lib self ctx i h d Hi).
  rewrite (step_bind_return _ _ _ _ _ Hcall).
  unfold EnrichmentStep.note_result.
  set (m := PipelineContext.metadata ctx) in *.
  destruct Hold as [[Hk ->]|(l & Hk & Hl)].
  - erewrite step_bind_return by (by eapply dict_setdefault_list_absent).
    erewrite step_bind_return.
    2:{ eapply (list_append_new_list _ _ _ []).
        rewrite list_lookup_insert_ne by lia.
        by rewrite lookup_app_r, Nat.sub_diag by lia. }
    eexists. exists (length h1), (S (length h1)). split; [done|].
    rewrite length_insert, length_app. simpl length. rewrite Nat.add_1_r.
    unfold entry. split_and!.
    + rewrite list_lookup_insert_ne by lia.
      rewrite lookup_app_l by (rewrite length_insert, length_app; simpl; lia).
      rewrite list_lookup_insert_eq by (rewrite length_app; simpl; lia).
      by rewrite lookup_insert_eq.
    + rewrite list_lookup_insert_eq; [done|].
      rewrite !length_app, length_insert, length_app. simpl. lia.
    + lia.
    + rewrite list_lookup_insert_ne by lia.
      rewrite lookup_app_r by (rewrite length_insert, length_app; simpl; lia).
      rewrite length_insert, length_app. simpl.
      by replace (S (length h1) - (length h1 + 1)) with 0 by lia.
  - pose proof (lookup_lt_Some _ _ _ Hl) as Hll.
    assert (l ≠ m) as Hne by (intros E; subst l; congruence).
    erewrite step_bind_return by (by eapply dict_setdefault_list_present).
    erewrite step_bind_return
      by (eapply list_append_new_list; by rewrite lookup_app_l).
    eexists. exists l, (S (length h1)). split; [done|].
    rewrite length_app. simpl length. rewrite Nat.add_1_r.
    unfold entry. split_and!.
    + rewrite list_lookup_insert_ne by done.
      rewrite !lookup_app_l by (rewrite ?length_app; simpl; lia).
      by rewrite Hm.
    + rewrite list_lookup_insert_eq; [done|].
      rewrite !length_app. simpl. lia.
    + lia.
    + rewrite list_lookup_insert_ne by lia.
      rewrite lookup_app_r by (rewrite length_app; simpl; lia).
      rewrite length_app. simpl.
      by replace (S (length h1) - (length h1 + 1)) with 0 by lia.
Qed.

Lemma enrichment_step_success_records_entry_witness :
  let lib : DataStarterClient.httpx val :=
    {| DataStarterClient.send := λ req, step_ret (VStr "response");
       DataStarterClient.raise_for_status := λ r, step_ret tt;
       DataStarterClient.body := λ r, step_ret (VStr "enriched") |} in
  let self := {| EnrichmentStep._enrichment_type := VStr "ADDRESS";
                 EnrichmentStep._strategy := VStr "ENHANCE" |} in
  let ctx := {| PipelineContext.correlation_id := VStr "corr-abc-123";
                PipelineContext.metadata := 0 |} in
  let h : heap := [ODict ∅; ODict {[ "country" := VStr "US" ]}] in
  ∃ h2 l r,
    EnrichmentStep.execute lib self ctx (VRef 1) h
    = (h2, Return (VStr "enriched")) ∧
    entry h2 (PipelineContext.metadata ctx) "enrichment_results"
    = Some (VRef l) ∧
    h2 !! l = Some (OList ([] ++ [VRef r])) ∧
    length (EnrichmentStep.request_store self h {[ "country" := VStr "US" ]}) ≤ r ∧
    h2 !! r = Some (ODict (EnrichmentStep.summary self ctx)).
Proof.
  cbv zeta.
  eapply (enrichment_step_success_records_entry
            {| DataStarterClient.send := λ req, step_ret (VStr "response");
               DataStarterClient.raise_for_status := λ r, step_ret tt;
               DataStarterClient.body := λ r, step_ret (VStr "enriched") |}
            _ _ 1 _ _ {[ "country" := VStr "US" ]} _ ∅ []).
  - reflexivity.
  - reflexivity.
  - reflexivity.
  - left. split; reflexivity.
Defined.

(** ** The job tool and the client *)

Lemma append_assoc (s1 s2 s3 : string) :
  (s1 +:+ s2) +:+ s3 = s1 +:+ s2 +:+ s3.
Proof.
  induction s1 as [|a s1 IH]; [done|].
  change (String a ((s1 +:+ s2) +:+ s3) = String a (s1 +:+ s2 +:+ s3)).
  by rewrite IH.
Qed.

Lemma append_not_empty (s1 s2 : string) : s2 ≠ "" → s1 +:+ s2 ≠ "".
Proof. intros Hs2. by destruct s1. Qed.

Lemma is_truthy_text (h : heap) (s : string) :
  s ≠ "" → is_truthy h (VStr s) = true.
Proof. intros Hs. simpl. by destruct s. Qed.

(** X17.  [_execute] validates before it calls the client.  Either it
    raises [KeyError] (no [action]) or [ValueError] (unknown action,
    missing or false [job_type] or [execution_id]) whatever the HTTP
    library is, so without any request; or it makes exactly one call of
    the library, for a start with a true [job_type], or a check or a
    collect with a true [execution_id]. *)
Theorem job_tool_validates_before_request str_of kwargs (h : heap) :
  (∃ e h',
     (e = KeyError "action" ∨ ∃ msg, e = ValueError msg) ∧
     ∀ R (lib : DataStarterClient.httpx R),
       DataJobTool._execute lib str_of kwargs h = (h', Throw e))
  ∨
  (∃ req h',
     (∀ R (lib : DataStarterClient.httpx R),
        DataJobTool._execute lib str_of kwargs h
        = DataStarterClient.call lib req h') ∧
     ((kwargs !! "action" = Some (VStr "start") ∧
       ∃ job_type,
         kwargs !! "job_type" = Some job_type ∧
         is_truthy (h ++ [ODict ∅]) job_type = true ∧
         req = {| DataStarterClient.verb_of := DataStarterClient.POST;
                  DataStarterClient.path := "/api/v1/jobs";
                  DataStarterClient.json := Some (VRef (S (length h)));
                  DataStarterClient.params := None |} ∧
         entry h' (S (length h)) "jobType" = Some job_type ∧
         entry h' (S (length h)) "parameters"
         = Some (default (VRef (length h)) (kwargs !! "parameters")))
      ∨
      (∃ execution_id,
         kwargs !! "execution_id" = Some execution_id ∧
         is_truthy h execution_id = true ∧
         h' = h ∧
         DataStarterClient.verb_of req = DataStarterClient.GET ∧
         ((kwargs !! "action" = Some (VStr "check") ∧
           DataStarterClient.path req
           = "/api/v1/jobs/"
             +:+ DataStarterClient.format_value str_of h execution_id)
          ∨
          (kwargs !! "action" = Some (VStr "collect") ∧
           DataStarterClient.path req
           = "/api/v1/jobs/"
             +:+ DataStarterClient.format_value str_of h execution_id
             +:+ "/results"))))).
Proof.
  unfold DataJobTool._execute.
  destruct (kwargs !! "action") as [action|] eqn:Ha.
  2:{ left. exists (KeyError "action"), h. split; [by left|done]. }
  destruct (DataJobTool.is_text action "start") eqn:Hstart.
  { assert (action = VStr "start") as ->.
    { destruct action; try done. simpl in Hstart.
      by apply String.eqb_eq in Hstart as ->. }
    destruct (is_truthy (h ++ [ODict ∅]) (default VNone (kwargs !! "job_type")))
      eqn:Ht.
    - destruct (kwargs !! "job_type") as [job_type|] eqn:Hj; [|done].
      simpl in Ht. right. eexists _, _. split.
      + intros R lib.
        rewrite (step_bind_return _ _ _ _ _ (of_M_alloc _ _)). simpl default.
        rewrite Ht. unfold DataStarterClient.start_job.
        rewrite (step_bind_return _ _ _ _ _ (of_M_alloc _ _)).
        rewrite length_app. simpl length. rewrite Nat.add_1_r. reflexivity.
      + left. split; [done|]. exists job_type.
        split_and!; [done..| |]; unfold entry;
          rewrite lookup_app_r by (rewrite length_app; simpl; lia);
          rewrite length_app; simpl;
          replace (S (length h) - (length h + 1)) with 0 by lia; simpl;
          by simplify_map_eq.
    - left. eexists _, _. split; [right; eauto|].
      intros R lib.
      rewrite (step_bind_return _ _ _ _ _ (of_M_alloc _ _)).
      by rewrite Ht. }
  destruct (DataJobTool.is_text action "check") eqn:Hcheck.
  { assert (action = VStr "check") as ->.
    { destruct action; try done. simpl in Hcheck.
      by apply String.eqb_eq in Hcheck as ->. }
    destruct (kwargs !! "execution_id") as [execution_id|] eqn:He; simpl default.
    - destruct (is_truthy h execution_id) eqn:Ht.
      + right. eexists _, h. split; [intros R lib; reflexivity|].
        right. exists execution_id. split_and!; [done..|]. left. by split.
      + left. eexists _, _. split; [right; eauto|done].
    - left. eexists _, _. split; [right; eauto|done]. }
  destruct (DataJobTool.is_text action "collect") eqn:Hcollect.
  { assert (action = VStr "collect") as ->.
    { destruct action; try done. simpl in Hcollect.
      by apply String.eqb_eq in Hcollect as ->. }
    destruct (kwargs !! "execution_id") as [execution_id|] eqn:He; simpl default.
    - destruct (is_truthy h execution_id) eqn:Ht.
      + right. eexists _, h. split; [intros R lib; reflexivity|].
        right. exists execution_id. split_and!; [done..|]. right. by split.
      + left. eexists _, _. split; [right; eauto|done].
    - left. eexists _, _. split; [right; eauto|done]. }
  left. eexists _, _. split; [right; eauto|done].
Qed.

Lemma job_tool_check {R} (lib : DataStarterClient.httpx R) str_of kwargs
    (h : heap) execution_id :
  kwargs !! "action" = Some (VStr "check") →
  kwargs !! "execution_id" = Some execution_id →
  is_truthy h execution_id = true →
  DataJobTool._execute lib str_of kwargs h
  = DataStarterClient.check_job lib str_of execution_id h.
Proof.
  intros Ha He Ht. unfold DataJobTool._execute. rewrite Ha, He. simpl.
  by rewrite Ht.
Qed.

Lemma job_tool_collect {R} (lib : DataStarterClient.httpx R) str_of kwargs
    (h : heap) execution_id :
  kwargs !! "action" = Some (VStr "collect") →
  kwargs !! "execution_id" = Some execution_id →
  is_truthy h execution_id = true →
  DataJobTool._execute lib str_of kwargs h
  = DataStarterClient.collect_results lib str_of execution_id h.
Proof.
  intros Ha He Ht. unfold DataJobTool._execute. rewrite Ha, He. simpl.
  by rewrite Ht.
Qed.

(** X18.  The request paths are plain concatenations of the identifiers.
    A check of the execution id [e/results] makes the very request a
    collect of [e] makes, and an operation of type [a/b] with id [c] makes
    the request of type [a] with id [b/c]. *)
Theorem paths_concatenate_identifiers {R} (lib : DataStarterClient.httpx R)
    str_of (h : heap) :
  (∀ kwargs1 kwargs2 e,
     e ≠ "" →
     kwargs1 !! "action" = Some (VStr "check") →
     kwargs1 !! "execution_id" = Some (VStr (e +:+ "/results")) →
     kwargs2 !! "action" = Some (VStr "collect") →
     kwargs2 !! "execution_id" = Some (VStr e) →
     DataJobTool._execute lib str_of kwargs1 h
     = DataJobTool._execute lib str_of kwargs2 h) ∧
  (∀ a b c request,
     DataStarterClient.execute_operation lib str_of
       (VStr (a +:+ "/" +:+ b)) (VStr c) request h
     = DataStarterClient.execute_operation lib str_of
         (VStr a) (VStr (b +:+ "/" +:+ c)) request h).
Proof.
  split.
  - intros kwargs1 kwargs2 e He Ha1 He1 Ha2 He2.
    rewrite (job_tool_check lib str_of kwargs1 h _ Ha1 He1)
      by (by apply is_truthy_text, append_not_empty).
    rewrite (job_tool_collect lib str_of kwargs2 h _ Ha2 He2)
      by (by apply is_truthy_text).
    done.
  - intros a b c request. unfold DataStarterClient.execute_operation. simpl.
    by rewrite !append_assoc.
Qed.

Lemma paths_concatenate_identifiers_witness :
  let lib : DataStarterClient.httpx string :=
    {| DataStarterClient.send :=
         λ req, step_ret (DataStarterClient.path req);
       DataStarterClient.raise_for_status := λ r, step_ret tt;
       DataStarterClient.body := λ r, step_ret (VStr r) |} in
  DataJobTool._execute lib (λ _ _, "")
    (<["action" := VStr "check"]>
       {[ "execution_id" := VStr ("exec-123" +:+ "/results") ]}) []
  = DataJobTool._execute lib (λ _ _, "")
      (<["action" := VStr "collect"]> {[ "execution_id" := VStr "exec-123" ]}) []
  ∧ DataJobTool._execute lib (λ _ _, "")
      (<["action" := VStr "collect"]> {[ "execution_id" := VStr "exec-123" ]}) []
    = ([], Return (VStr "/api/v1/jobs/exec-123/results")).
Proof.
  cbv zeta. split; [|vm_compute; reflexivity].
  eapply (proj1 (paths_concatenate_identifiers _ _ _)); [|reflexivity..].
  discriminate.
Defined.

(** X19.  Over any sequence of requests and [close] calls, the instance
    keeps at most one HTTP client open: a client is constructed only when
    none is open, every request uses the client that is open, [close]
    closes only an open client, and [_client] is the open client, if any. *)
Theorem client_keeps_one_open_client uses : ∀ self w,
  ∃ new,
    (DataStarterClient.life uses self w).2 = w ++ new ∧
    DataStarterClient.opened_after new
      (option_list (DataStarterClient._client self))
    = Some (option_list
              (DataStarterClient._client (DataStarterClient.life uses self w).1)).
Proof.
  induction uses as [|[|] uses IH]; intros self w.
  - exists []. by rewrite app_nil_r.
  - simpl. unfold DataStarterClient.request_with, DataStarterClient._ensure_client.
    destruct (DataStarterClient._client self) as [client|] eqn:Hc.
    + destruct (IH self (w ++ [DataStarterClient.Requested client]))
        as (new & Hw & Hopen).
      exists (DataStarterClient.Requested client :: new).
      split; [rewrite Hw; by rewrite <- !(assoc_L (++))|].
      simpl. rewrite bool_decide_eq_true_2 by (by left).
      by rewrite Hc in Hopen.
    + set (client := DataStarterClient.constructed w).
      set (self1 := {| DataStarterClient.base_url := _ |}).
      destruct (IH self1
                  ((w ++ [DataStarterClient.Constructed client
                            (DataStarterClient.base_url self)
                            (DataStarterClient.timeout self)])
                   ++ [DataStarterClient.Requested client]))
        as (new & Hw & Hopen).
      exists (DataStarterClient.Constructed client
                (DataStarterClient.base_url self)
                (DataStarterClient.timeout self)
              :: DataStarterClient.Requested client :: new).
      split; [rewrite Hw; by rewrite <- !(assoc_L (++))|].
      simpl. rewrite bool_decide_eq_true_2 by (by left). exact Hopen.
  - simpl. unfold DataStarterClient.close.
    destruct (DataStarterClient._client self) as [client|] eqn:Hc.
    + set (self1 := {| DataStarterClient.base_url := _ |}).
      destruct (IH self1 (w ++ [DataStarterClient.Closed client]))
        as (new & Hw & Hopen).
      exists (DataStarterClient.Closed client :: new).
      split; [rewrite Hw; by rewrite <- !(assoc_L (++))|].
      simpl. rewrite bool_decide_eq_true_2 by (by left).
      rewrite filter_cons_False by (intros Hne; by apply Hne).
      rewrite filter_nil. exact Hopen.
    + destruct (IH self w) as (new & Hw & Hopen). exists new.
      split; [done|]. by rewrite Hc in Hopen.
Qed.

(** X20.  An [after_run] that returns changes the store in three places
    only: the start key is removed from the metadata (every other key
    stays), one record is allocated at the end of the store, and a
    reference to it is appended to the log; every other object that
    existed is unchanged. *)
Theorem after_run_touches_three_objects self now ctx result (h h' : heap) v d xs :
  h !! metadata ctx = Some (ODict d) →
  h !! _records self = Some (OList xs) →
  after_run self now ctx result h = (h', Ok v) →
  h' !! metadata ctx = Some (ODict (delete "lineage_start_ns" d)) ∧
  h' !! _records self = Some (OList (xs ++ [VRef (length h)])) ∧
  length h' = S (length h) ∧
  (∃ rec, h' !! length h = Some (ODict rec) ∧
          dom rec = {[ "lineage_id"; "agent_name"; "method"; "elapsed_ms";
                       "has_result" ]}) ∧
  ∀ l, l < length h → l ≠ metadata ctx → l ≠ _records self → h' !! l = h !! l.
Proof.
  intros Hm Hr Hrun.
  apply after_run_ok_inv in Hrun as (d' & xs' & e & Hm' & Hr' & He & -> & ->).
  rewrite Hm in Hm'. injection Hm' as <-. rewrite Hr in Hr'. injection Hr' as <-.
  pose proof (lookup_lt_Some _ _ _ Hm) as Hlm.
  pose proof (lookup_lt_Some _ _ _ Hr) as Hlr.
  assert (_records self ≠ metadata ctx) as Hne by (intros E; congruence).
  assert (length h ≠ metadata ctx ∧ length h ≠ _records self) as [??] by lia.
  split_and!.
  - by store_lookup.
  - store_lookup. by rewrite popped_length.
  - store_lia.
  - eexists. split; [by store_lookup|].
    unfold make_record. rewrite !dom_insert_L, dom_empty_L. set_solver.
  - intros l ???. by store_lookup.
Qed.

Lemma after_run_touches_three_objects_witness :
  let h : heap := [OList []; ODict {[ "tenant" := VStr "acme" ]}] in
  let h' := (after_run fixture_middleware 2000 fake_context (VStr "x") h).1 in
  h' !! metadata fake_context
  = Some (ODict (delete "lineage_start_ns" {[ "tenant" := VStr "acme" ]})) ∧
  h' !! _records fixture_middleware = Some (OList ([] ++ [VRef (length h)])) ∧
  length h' = S (length h).
Proof.
  cbv zeta.
  destruct (after_run_touches_three_objects fixture_middleware 2000 fake_context
              (VStr "x") [OList []; ODict {[ "tenant" := VStr "acme" ]}]
              (after_run fixture_middleware 2000 fake_context (VStr "x")
                 [OList []; ODict {[ "tenant" := VStr "acme" ]}]).1
              (VStr "x") {[ "tenant" := VStr "acme" ]} [])
    as (Hmeta & Hlog & Hlen & _).
  - reflexivity.
  - reflexivity.
  - vm_compute. reflexivity.
  - by split_and!.
Defined.
